(** * NSEApp: the fetch / normalise / rank pipeline of [NSEApp.py]

    A shallow embedding of the script's data pipeline and of the two
    caches in front of it.

    - Numbers are IEEE binary64 ([PrimFloat.float]), the dtype pandas
      gives a coerced column; NaN is pandas' missing-value marker.  JSON
      numbers are taken at their float64 value.
    - A data frame is its column labels and its rows, each row a finite
      map from label to cell.
    - Exceptions are a [result] type; the stateful part (provider
      requests, clock, the two memo slots) is a state monad over
      [process].
    - Three library routines are parameters: the provider call
      [nsefetch], pandas' string-to-float parser [floatify], and numpy's
      [argsort] (pandas' default [kind='quicksort']). *)

From Stdlib Require Import Floats ZArith Sorted Ascii.
From stdpp Require Import gmap strings list sorting.

Set Default Proof Using "Type".

Open Scope string_scope.
Open Scope list_scope.
Open Scope stdpp_scope.

(** ** Exceptions *)

Inductive exn :=
| KeyError (k : string)
| TypeError
| IndexError
| ProviderError (msg : string).

Inductive result (A : Type) :=
| Ok (a : A)
| Raise (e : exn).
Arguments Ok {A} a.
Arguments Raise {A} e.

Definition rbind {A B} (m : result A) (k : A → result B) : result B :=
  match m with
  | Ok a => k a
  | Raise e => Raise e
  end.

#[global] Instance result_ret : MRet result := λ A a, Ok a.
#[global] Instance result_bind : MBind result := λ A B k m, rbind m k.
#[global] Instance result_fmap : FMap result := λ A B f m,
  match m with Ok a => Ok (f a) | Raise e => Raise e end.

Fixpoint mapR {A B} (f : A → result B) (l : list A) : result (list B) :=
  match l with
  | [] => Ok []
  | a :: l' => b ← f a; bs ← mapR f l'; Ok (b :: bs)
  end.

(** ** Cells, records, frames *)

(** A cell of an object column or a value of a decoded JSON record.
    [VObj] stands for a nested JSON object or array. *)
Inductive value :=
| VNone
| VNum (f : float)
| VStr (s : string)
| VObj.

(** [pandas.isna] on a cell. *)
Definition isna (v : value) : bool :=
  match v with
  | VNone => true
  | VNum f => is_nan f
  | _ => false
  end.

(** A decoded JSON object, in key order. *)
Definition record := list (string * value).

Abbreviation row := (gmap string value).

Record DataFrame := mkDataFrame {
  columns : list string;
  rows : list row
}.

(** The cell of a row under a label; a label the row lacks reads as NaN,
    the fill value of the frame constructors. *)
Definition cell (r : row) (c : string) : value :=
  default (VNum nan) (r !! c).

(** [dict(rec)]: later duplicates of a key win. *)
Definition dict (rec : record) : row :=
  foldl (λ m kv, <[kv.1 := kv.2]> m) ∅ rec.

Definition add_label (c : string) (cols : list string) : list string :=
  if bool_decide (c ∈ cols) then cols else cols ++ [c].

(** Union of label lists, in order of first appearance. *)
Definition union_labels (ls : list (list string)) : list string :=
  foldl (λ cols c, add_label c cols) [] (concat ls).

(** Reindex a row on the labels [cols], filling with NaN. *)
Definition reindex (cols : list string) (r : row) : row :=
  list_to_map ((λ c, (c, cell r c)) <$> cols).

(** [pd.DataFrame(records)] for a list of dicts. *)
Definition DataFrame_of_records (recs : list record) : DataFrame :=
  let cols := union_labels ((λ rec, rec.*1) <$> recs) in
  {| columns := cols; rows := (λ rec, reindex cols (dict rec)) <$> recs |}.

(** [df[c]]: the column as a Series. *)
Definition getitem (df : DataFrame) (c : string) : result (list value) :=
  if bool_decide (c ∈ columns df)
  then Ok ((λ r, cell r c) <$> rows df)
  else Raise (KeyError c).

(** [df[c] = series], the series having the frame's index. *)
Definition setitem (df : DataFrame) (c : string) (s : list value) : DataFrame :=
  {| columns := add_label c (columns df);
     rows := zip_with (λ r v, <[c := v]> r) (rows df) s |}.

(** [df[c] = scalar]. *)
Definition setitem_scalar (df : DataFrame) (c : string) (v : value) : DataFrame :=
  {| columns := add_label c (columns df);
     rows := (λ r, <[c := v]> r) <$> rows df |}.

(** [pd.concat(frames, ignore_index=True)]. *)
Definition concat_frames (frames : list DataFrame) : DataFrame :=
  let cols := union_labels (columns <$> frames) in
  {| columns := cols;
     rows := concat ((λ df, reindex cols <$> rows df) <$> frames) |}.

(** [df[[c1; ...; cn]]]. *)
Definition select_columns (df : DataFrame) (cols : list string) : result DataFrame :=
  match filter (λ c, c ∉ columns df) cols with
  | [] => Ok {| columns := cols; rows := reindex cols <$> rows df |}
  | c :: _ => Raise (KeyError c)
  end.

(** Positional take, [IndexError] out of range. *)
Definition take_idx {A} (idx : list nat) (l : list A) : result (list A) :=
  mapR (λ i, match l !! i with Some x => Ok x | None => Raise IndexError end) idx.

(** ** Element-wise arithmetic on Series *)

Definition vsub (a b : value) : result value :=
  match a, b with
  | VNum x, VNum y => Ok (VNum (x - y)%float)
  | _, _ => Raise TypeError
  end.

Definition vdiv (a b : value) : result value :=
  match a, b with
  | VNum x, VNum y => Ok (VNum (x / y)%float)
  | _, _ => Raise TypeError
  end.

Definition vmul (a b : value) : result value :=
  match a, b with
  | VNum x, VNum y => Ok (VNum (x * y)%float)
  | _, _ => Raise TypeError
  end.

Definition series_op (op : value → value → result value)
    (a b : list value) : result (list value) :=
  mapR (λ p, op p.1 p.2) (zip a b).

Definition series_op_scalar (op : value → value → result value)
    (a : list value) (k : value) : result (list value) :=
  mapR (λ x, op x k) a.

(** ** The process: provider log, clock, the two memo slots *)

(** What the script reads of a decoded provider response: the value
    under the key [data], when the key is there. *)
Record response := mkResponse {
  resp_data : option (list record)
}.

Record process := mkProcess {
  lru_slot : option DataFrame;          (* functools.lru_cache(maxsize=1) *)
  memo_slot : option (Z * DataFrame);   (* SimpleCache entry: expiry, value *)
  requests : list string;               (* URLs requested so far *)
  ticks : nat                           (* clock readings taken so far *)
}.

Definition M (A : Type) : Type := process → result A * process.

#[global] Instance M_ret : MRet M := λ A a s, (Ok a, s).
#[global] Instance M_bind : MBind M := λ A B k m s,
  match m s with
  | (Ok a, s') => k a s'
  | (Raise e, s') => (Raise e, s')
  end.

Definition liftR {A} (r : result A) : M A := λ s, (r, s).

Definition indices : list string :=
  [ "NIFTY 50"; "NIFTY NEXT 50"; "NIFTY MIDCAP 50"; "NIFTY SMALLCAP 100";
    "NIFTY 100"; "NIFTY 200"; "NIFTY 500"; "NIFTY MIDCAP 100";
    "NIFTY MIDCAP 150"; "NIFTY SMALLCAP 250"; "NIFTY MIDSML 400" ].

(** [index.replace(' ', '%20')] *)
Fixpoint replace_space (s : string) : string :=
  match s with
  | EmptyString => EmptyString
  | String a s' =>
      if Ascii.eqb a " "%char then "%20" +:+ replace_space s'
      else String a (replace_space s')
  end.


Definition url_of (index : string) : string :=
  "https://www.nseindia.com/api/equity-stockIndices?index=" +:+ replace_space index.

Definition CACHE_TIMEOUT : Z := 5 * 5.

(** ** Spreadsheet export *)

(** Keyword arguments of [DataFrame.to_excel] that the script uses. *)
Record excel_kwargs := mkKwargs {
  kw_index : option bool;
  kw_sheet_name : option string
}.

(** The written workbook, before its byte encoding. *)
Record workbook := mkWorkbook {
  sheet_name : string;
  index_column : bool;
  header : list string;
  cells : list (list value)
}.

(** [df.to_excel(writer, **kwargs)]; pandas' defaults are [index=True]
    and [sheet_name='Sheet1']. *)
Definition to_excel (df : DataFrame) (kw : excel_kwargs) : workbook :=
  {| sheet_name := default "Sheet1" (kw_sheet_name kw);
     index_column := default true (kw_index kw);
     header := columns df;
     cells := (λ r, cell r <$> columns df) <$> rows df |}.

(** The dictionary [dcc.send_data_frame] hands to the download
    component; [content] is the workbook whose bytes it encodes. *)
Record download := mkDownload {
  content : workbook;
  filename : string;
  base64 : bool
}.

Definition send_data_frame (writer : excel_kwargs → workbook)
    (filename : string) (kw : excel_kwargs) : download :=
  {| content := writer kw; filename := filename; base64 := true |}.

(** [generate_excel_download_link]: the media type of the data URI and
    the workbook it carries. *)
Definition generate_excel_download_link (df : DataFrame) : string * workbook :=
  let output := to_excel df {| kw_index := Some false; kw_sheet_name := Some "Stocks" |} in
  ("data:application/vnd.openxmlformats-officedocument.spreadsheetml.sheet;base64,",
   output).


(** ** Library routines the script relies on

    [argsort] is a parameter of the pipeline below.  Two instances are
    kept here: a plain stable insertion argsort, and numpy's own
    algorithm for [kind='quicksort'] (introsort on the index array:
    median-of-three quicksort, insertion sort on runs of at most 17
    positions, heapsort once the depth budget is spent). *)

Fixpoint insert_key (p : nat * float) (l : list (nat * float)) : list (nat * float) :=
  match l with
  | [] => [p]
  | q :: l' => if (p.2 <=? q.2)%float then p :: q :: l' else q :: insert_key p l'
  end.

Definition insertion_argsort (ks : list float) : list nat :=
  (foldr insert_key [] (zip (seq 0 (length ks)) ks)).*1.

(** numpy's [DOUBLE_LT]: the order of [<] with NaN last. *)
Definition npy_lt (a b : float) : bool :=
  (a <? b)%float || (is_nan b && negb (is_nan a)).

Definition SMALL_QUICKSORT : nat := 16.

(** The key under position [p] of the index array [t]. *)
Definition key_at (v : list float) (t : list nat) (p : nat) : float :=
  default nan (t !! p ≫= λ i, v !! i).

(** numpy's [INTP_SWAP] of two positions of the index array. *)
Definition intp_swap (t : list nat) (a b : nat) : list nat :=
  match t !! a, t !! b with
  | Some x, Some y => <[a := y]> (<[b := x]> t)
  | _, _ => t
  end.

(** The inner loop of the insertion sort: positions move one to the
    right while the key to place is smaller than the key on its left. *)
Fixpoint shift_right (v : list float) (fuel : nat) (t : list nat) (vp : float)
    (pl pj : nat) : list nat * nat :=
  match fuel with
  | 0 => (t, pj)
  | S fuel =>
      if (pl <? pj)%nat && npy_lt vp (key_at v t (pj - 1))
      then shift_right v fuel (<[pj := default 0 (t !! (pj - 1))]> t) vp pl (pj - 1)
      else (t, pj)
  end.

Definition insert_at (v : list float) (t : list nat) (pl pi : nat) : list nat :=
  let vi := default 0 (t !! pi) in
  let vp := default nan (v !! vi) in
  let '(t, pj) := shift_right v pi t vp pl pi in
  <[pj := vi]> t.

(** The insertion sort of the positions [pl .. pr]. *)
Definition insertion_sort (v : list float) (t : list nat) (pl pr : nat) : list nat :=
  foldl (λ t pi, insert_at v t pl pi) t (seq (S pl) (pr - pl)).

(** Advance [pi] at least once, while its key is below the pivot. *)
Fixpoint scan_up (v : list float) (fuel : nat) (t : list nat) (vp : float)
    (pi : nat) : nat :=
  match fuel with
  | 0 => pi
  | S fuel =>
      let pi := S pi in
      if npy_lt (key_at v t pi) vp then scan_up v fuel t vp pi else pi
  end.

(** Retreat [pj] at least once, while the pivot is below its key. *)
Fixpoint scan_down (v : list float) (fuel : nat) (t : list nat) (vp : float)
    (pj : nat) : nat :=
  match fuel with
  | 0 => pj
  | S fuel =>
      let pj := pj - 1 in
      if npy_lt vp (key_at v t pj) then scan_down v fuel t vp pj else pj
  end.

Fixpoint partition_loop (v : list float) (fuel : nat) (t : list nat) (vp : float)
    (pi pj : nat) : list nat * nat :=
  match fuel with
  | 0 => (t, pi)
  | S fuel =>
      let pi := scan_up v (length t) t vp pi in
      let pj := scan_down v (length t) t vp pj in
      if (pj <=? pi)%nat then (t, pi)
      else partition_loop v fuel (intp_swap t pi pj) vp pi pj
  end.

(** One quicksort partition of [pl .. pr]; the pivot ends at the
    returned position. *)
Definition partition (v : list float) (t : list nat) (pl pr : nat) : list nat * nat :=
  let pm := pl + (pr - pl) / 2 in
  let t := if npy_lt (key_at v t pm) (key_at v t pl) then intp_swap t pm pl else t in
  let t := if npy_lt (key_at v t pr) (key_at v t pm) then intp_swap t pr pm else t in
  let t := if npy_lt (key_at v t pm) (key_at v t pl) then intp_swap t pm pl else t in
  let vp := key_at v t pm in
  let pj := pr - 1 in
  let t := intp_swap t pm pj in
  let '(t, pi) := partition_loop v (length t) t vp pl pj in
  (intp_swap t pi (pr - 1), pi).

(** The heap of [aheapsort] is one-based on [a = pl - 1]. *)
Definition heap_get (t : list nat) (pl k : nat) : nat := default 0 (t !! (pl + k - 1)).
Definition heap_set (t : list nat) (pl k x : nat) : list nat := <[pl + k - 1 := x]> t.

Fixpoint sift_down (v : list float) (fuel : nat) (t : list nat) (pl n tmp i j : nat)
    : list nat * nat :=
  match fuel with
  | 0 => (t, i)
  | S fuel =>
      if (j <=? n)%nat then
        let j := if (j <? n)%nat &&
                    npy_lt (default nan (v !! heap_get t pl j))
                           (default nan (v !! heap_get t pl (j + 1)))
                 then j + 1 else j in
        if npy_lt (default nan (v !! tmp)) (default nan (v !! heap_get t pl j))
        then sift_down v fuel (heap_set t pl i (heap_get t pl j)) pl n tmp j (j + j)
        else (t, i)
      else (t, i)
  end.

Definition heap_place (v : list float) (t : list nat) (pl n tmp i j : nat) : list nat :=
  let '(t, i) := sift_down v (S n) t pl n tmp i j in
  heap_set t pl i tmp.

Fixpoint heap_sort_down (v : list float) (fuel : nat) (t : list nat) (pl n : nat)
    : list nat :=
  match fuel with
  | 0 => t
  | S fuel =>
      if (1 <? n)%nat then
        let tmp := heap_get t pl n in
        let t := heap_set t pl n (heap_get t pl 1) in
        let n := n - 1 in
        heap_sort_down v fuel (heap_place v t pl n tmp 1 2) pl n
      else t
  end.

Definition aheapsort (v : list float) (t : list nat) (pl n : nat) : list nat :=
  let t := foldl (λ t l, heap_place v t pl n (heap_get t pl l) l (l + l)) t
             (reverse (seq 1 (n / 2))) in
  heap_sort_down v n t pl n.

(** [while ((pr - pl) > SMALL_QUICKSORT)]: partition, push the larger
    side with the decremented depth, go on with the smaller. *)
Fixpoint quick_loop (v : list float) (fuel : nat) (t : list nat) (pl pr : nat)
    (stack : list (nat * nat * Z)) (cdepth : Z)
    : list nat * nat * nat * list (nat * nat * Z) * Z :=
  match fuel with
  | 0 => (t, pl, pr, stack, cdepth)
  | S fuel =>
      if (SMALL_QUICKSORT <? pr - pl)%nat then
        let '(t, pi) := partition v t pl pr in
        let cdepth := (cdepth - 1)%Z in
        if (pi - pl <? pr - pi)%nat
        then quick_loop v fuel t pl (pi - 1) ((pi + 1, pr, cdepth) :: stack) cdepth
        else quick_loop v fuel t (pi + 1) pr ((pl, pi - 1, cdepth) :: stack) cdepth
      else (t, pl, pr, stack, cdepth)
  end.

Fixpoint intro_loop (v : list float) (fuel : nat) (t : list nat) (pl pr : nat)
    (stack : list (nat * nat * Z)) (cdepth : Z) : list nat :=
  match fuel with
  | 0 => t
  | S fuel =>
      let '(t, stack) :=
        if (cdepth <? 0)%Z then (aheapsort v t pl (S pr - pl), stack)
        else
          let '(t, pl, pr, stack, _) := quick_loop v (length t) t pl pr stack cdepth in
          (insertion_sort v t pl pr, stack) in
      match stack with
      | [] => t
      | (pl, pr, cdepth) :: stack => intro_loop v fuel t pl pr stack cdepth
      end
  end.

(** [np.argsort(v, kind='quicksort')] on float64. *)
Definition npy_argsort (v : list float) : list nat :=
  let num := length v in
  match num with
  | 0 => []
  | S n => intro_loop v (S num) (seq 0 num) 0 n [] (2 * Z.log2 (Z.of_nat num))%Z
  end.

(** ** Sample data *)

(** A parser of numeric text for the examples: none of their text is a
    number. *)
Definition no_number (s : string) : option float := None.

Definition quote (symbol : string) (yearHigh lastPrice previousClose : value) : record :=
  [ ("symbol", VStr symbol); ("open", VNum 1); ("dayHigh", VNum 2);
    ("dayLow", VNum 0.5); ("lastPrice", lastPrice);
    ("previousClose", previousClose); ("totalTradedVolume", VNum 1000);
    ("yearHigh", yearHigh); ("yearLow", VNum 0.25) ].

Definition tag (index : string) (recs : list record) : DataFrame :=
  setitem_scalar (DataFrame_of_records recs) "index" (VStr index).

(** Two indices; a text and a null among the numeric cells, a zero
    previous close, and a [pe] that only the second index reports. *)
Definition sample_frame : DataFrame :=
  concat_frames
    [ tag "NIFTY 50"
        [ quote "X" (VNum 100) (VNum 95) (VNum 90);
          quote "Z" (VStr "-") (VNum 5) (VNum 0);
          quote "W" VNone (VStr "n/a") (VNum 7) ];
      tag "NIFTY 100"
        [ quote "Y" (VNum 150) (VNum 50) (VNum 55) ++ [("pe", VNum 21)] ] ].

(** A frame none of whose records carries [yearLow]. *)
Definition frame_without_yearLow : DataFrame :=
  tag "NIFTY 50" [ [ ("symbol", VStr "X"); ("open", VNum 1); ("dayHigh", VNum 2);
                     ("dayLow", VNum 0.5); ("lastPrice", VNum 95);
                     ("previousClose", VNum 90); ("totalTradedVolume", VNum 1000);
                     ("yearHigh", VNum 100) ] ].


Definition tied_symbols : list string :=
  [ "S00"; "S01"; "S02"; "S03"; "S04"; "S05"; "S06"; "S07"; "S08";
    "S09"; "S10"; "S11"; "S12"; "S13"; "S14"; "S15"; "S16"; "S17" ].

(** Eighteen constituents of one index, all with the same 52-week high. *)
Definition tied_frame : DataFrame :=
  tag "NIFTY 50" ((λ s, quote s (VNum 100) (VNum 95) (VNum 90)) <$> tied_symbols).

(** Providers for the examples: one that answers two of the indices with
    records, one that answers none, one whose request for NIFTY 100 times
    out, and one whose answer for NIFTY 100 lacks the key [data]. *)
Definition sample_nsefetch (log : list string) (url : string) : result response :=
  if bool_decide (url = url_of "NIFTY 50") then
    Ok {| resp_data := Some [ quote "X" (VNum 100) (VNum 95) (VNum 90);
                              quote "Z" (VStr "-") (VNum 5) (VNum 0);
                              quote "W" VNone (VStr "n/a") (VNum 7) ] |}
  else if bool_decide (url = url_of "NIFTY 100") then
    Ok {| resp_data := Some [ quote "Y" (VNum 150) (VNum 50) (VNum 55)
                              ++ [("pe", VNum 21)];
                              quote "X" (VNum 100) (VNum 95) (VNum 90) ] |}
  else Ok {| resp_data := Some [] |}.


Definition failing_nsefetch (log : list string) (url : string) : result response :=
  if bool_decide (url = url_of "NIFTY 100") then Raise (ProviderError "timeout")
  else sample_nsefetch log url.

Definition malformed_nsefetch (log : list string) (url : string) : result response :=
  if bool_decide (url = url_of "NIFTY 100") then Ok {| resp_data := None |}
  else sample_nsefetch log url.

(** A clock that advances thirty seconds per reading. *)
Definition sample_clock (n : nat) : Z := 30 * Z.of_nat n.

(** The process at start-up, and one that has read its clock before. *)
Definition cold : process :=
  {| lru_slot := None; memo_slot := None; requests := []; ticks := 0 |}.




(** Whether a computation returned. *)
Definition returns {A} (m : result A) : bool :=
  match m with Ok _ => true | Raise _ => false end.

(** A closed decidable fact, by evaluation. *)
Ltac decide_true :=
  match goal with |- ?P => apply (bool_decide_unpack P); vm_compute; exact I end.
Section Pipeline.

(** pandas' parser of numeric text; [None] when the text is not a number. *)
Variable floatify : string → option float.
(** numpy's [argsort] of a float64 array free of NaN. *)
Variable argsort : list float → list nat.
(** The provider call; its answer may depend on the requests made so far. *)
Variable nsefetch : list string → string → result response.
(** [time.time()], one value per reading. *)
Variable clock : nat → Z.

(** *** [pd.to_numeric(series, errors='coerce')] *)

Definition to_numeric_cell (v : value) : float :=
  match v with
  | VNum f => f
  | VStr s => if bool_decide (s = "") then nan else default nan (floatify s)
  | VNone | VObj => nan
  end.

Definition to_numeric (s : list value) : list value :=
  (λ v, VNum (to_numeric_cell v)) <$> s.

(** *** [DataFrame.sort_values] on one float64 column *)

(** [l[mask]] *)
Definition boolean_index {A} (mask : list bool) (l : list A) : list A :=
  (filter (λ p, p.1 = true) (zip mask l)).*2.

(** pandas' [nargsort] with [na_position='last']. *)
Definition nargsort (items : list float) (ascending : bool) : result (list nat) :=
  let mask := is_nan <$> items in
  let idx := seq 0 (length items) in
  let non_nans := boolean_index (negb <$> mask) items in
  let non_nan_idx := boolean_index (negb <$> mask) idx in
  let nan_idx := boolean_index mask idx in
  let non_nans := if ascending then non_nans else reverse non_nans in
  let non_nan_idx := if ascending then non_nan_idx else reverse non_nan_idx in
  indexer ← take_idx (argsort non_nans) non_nan_idx;
  let indexer := if ascending then indexer else reverse indexer in
  Ok (indexer ++ nan_idx).

Definition as_float64 (v : value) : result float :=
  match v with
  | VNum f => Ok f
  | _ => Raise TypeError
  end.

Definition sort_values (df : DataFrame) (by_ : string) (ascending : bool)
    : result DataFrame :=
  k ← getitem df by_;
  items ← mapR as_float64 k;
  indexer ← nargsort items ascending;
  rs ← take_idx indexer (rows df);
  Ok {| columns := columns df; rows := rs |}.

(** *** The Normalizer/Ranker: lines 50-88 of [get_stock_data] *)

(** [df[c] = pd.to_numeric(df[c], errors='coerce')] *)
Definition coerce_column (df : DataFrame) (c : string) : result DataFrame :=
  s ← getitem df c;
  Ok (setitem df c (to_numeric s)).

(** The guarded form used for the optional columns. *)
Definition coerce_or_none (df : DataFrame) (c : string) : result DataFrame :=
  if bool_decide (c ∈ columns df)
  then coerce_column df c
  else Ok (setitem_scalar df c VNone).

Definition output_columns : list string :=
  [ "symbol"; "index"; "lastPrice"; "previousClose"; "open"; "dayHigh";
    "dayLow"; "priceChange"; "percentageChange"; "yearHigh";
    "yearLow"; "totalMktCap"; "pe"; "vwap" ].

Definition normalize_and_rank (df : DataFrame) : result DataFrame :=
  df ← coerce_column df "totalTradedVolume";
  df ← coerce_column df "lastPrice";
  df ← coerce_column df "previousClose";
  df ← coerce_column df "open";
  df ← coerce_column df "dayHigh";
  df ← coerce_column df "dayLow";
  df ← coerce_column df "yearHigh";
  df ← coerce_column df "yearLow";
  df ← coerce_or_none df "totalMktCap";
  df ← coerce_or_none df "pe";
  df ← coerce_or_none df "vwap";
  lastPrice ← getitem df "lastPrice";
  previousClose ← getitem df "previousClose";
  priceChange ← series_op vsub lastPrice previousClose;
  let df := setitem df "priceChange" priceChange in
  priceChange ← getitem df "priceChange";
  previousClose ← getitem df "previousClose";
  ratio ← series_op vdiv priceChange previousClose;
  percentageChange ← series_op_scalar vmul ratio (VNum 100);
  let df := setitem df "percentageChange" percentageChange in
  sorted_df ← sort_values df "yearHigh" false;
  select_columns sorted_df output_columns.

(** *** The pipeline, row by row

    What [normalize_and_rank] makes of one source row; lemma
    [normalize_and_rank_eq] relates the two. *)

Definition mandatory_columns : list string :=
  [ "totalTradedVolume"; "lastPrice"; "previousClose"; "open";
    "dayHigh"; "dayLow"; "yearHigh"; "yearLow" ].

Definition optional_columns : list string := [ "totalMktCap"; "pe"; "vwap" ].

Definition coerce_row (c : string) (r : row) : row :=
  <[c := VNum (to_numeric_cell (cell r c))]> r.

Definition optional_row (cols : list string) (c : string) (r : row) : row :=
  if bool_decide (c ∈ cols) then coerce_row c r else <[c := VNone]> r.

Definition number (v : value) : float :=
  match v with
  | VNum f => f
  | _ => nan
  end.

Definition price_row (r : row) : row :=
  <["priceChange" :=
      VNum (number (cell r "lastPrice") - number (cell r "previousClose"))%float]> r.

Definition percent_row (r : row) : row :=
  <["percentageChange" :=
      VNum (number (cell r "priceChange") / number (cell r "previousClose")
            * 100)%float]> r.

Definition coerce_mandatory (r : row) : row :=
  foldl (λ r c, coerce_row c r) r mandatory_columns.

Definition coerce_optional (cols : list string) (r : row) : row :=
  foldl (λ r c, optional_row cols c r) r optional_columns.

Definition derive_row (cols : list string) (r : row) : row :=
  percent_row (price_row (coerce_optional cols (coerce_mandatory r))).

Definition norm_row (cols : list string) (r : row) : row :=
  reindex output_columns (derive_row cols r).

(** The labels of the frame handed to [sort_values]. *)
Definition derived_columns (cols : list string) : list string :=
  add_label "percentageChange" (add_label "priceChange"
    (foldl (λ cols c, add_label c cols) cols optional_columns)).

(** The sort key of a source row. *)
Definition year_high (r : row) : float :=
  to_numeric_cell (cell r "yearHigh").

(** The source rows with and without a 52-week high, in source order. *)
Definition present_rows (rs : list row) : list row :=
  filter (λ r, is_nan (year_high r) = false) rs.

Definition missing_rows (rs : list row) : list row :=
  filter (λ r, is_nan (year_high r) = true) rs.

(** *** The Fetcher *)

Definition tick (s : process) : process :=
  {| lru_slot := lru_slot s; memo_slot := memo_slot s;
     requests := requests s; ticks := S (ticks s) |}.

Definition time : M Z := λ s, (Ok (clock (ticks s)), tick s).

Definition log_request (s : process) (url : string) : process :=
  {| lru_slot := lru_slot s; memo_slot := memo_slot s;
     requests := requests s ++ [url]; ticks := ticks s |}.

Definition nsefetch_call (url : string) : M response := λ s,
  (nsefetch (requests s) url, log_request s url).

(** One turn of the loop over [indices]. *)
Definition fetch_index (index : string) : M DataFrame :=
  data ← nsefetch_call (url_of index);
  recs ← liftR (match resp_data data with
                | Some recs => Ok recs
                | None => Raise (KeyError "data")
                end);
  let df := DataFrame_of_records recs in
  mret (setitem_scalar df "index" (VStr index)).

Fixpoint fetch_loop (l : list string) (all_data : list DataFrame)
    : M (list DataFrame) :=
  match l with
  | [] => mret all_data
  | index :: l' =>
      df ← fetch_index index;
      fetch_loop l' (all_data ++ [df])
  end.

(** The undecorated [get_all_indices_data]. *)
Definition fetch_all : M DataFrame :=
  all_data ← fetch_loop indices [];
  mret (concat_frames all_data).

Definition store (s : process) (now : Z) (df : DataFrame) : process :=
  {| lru_slot := lru_slot s; memo_slot := Some ((now + CACHE_TIMEOUT)%Z, df);
     requests := requests s; ticks := ticks s |}.

Definition memo_set (now : Z) (df : DataFrame) : M unit := λ s,
  (Ok (), store s now df).

(** [@cache.memoize(timeout=CACHE_TIMEOUT)]: a stored value is served
    while its expiry lies ahead; a call that raises stores nothing. *)
Definition get_all_indices_data : M DataFrame := λ s,
  let miss : M DataFrame :=
    df ← fetch_all;
    now ← time;
    _ ← memo_set now df;
    mret df in
  match time s with
  | (Ok now, s') =>
      match memo_slot s' with
      | Some (expires, df) =>
          if (now <? expires)%Z then (Ok df, s') else miss s'
      | None => miss s'
      end
  | (Raise e, s') => (Raise e, s')
  end.

(** The undecorated [get_stock_data]. *)
Definition compute_stock_data : M DataFrame :=
  df ← get_all_indices_data;
  liftR (normalize_and_rank df).

(** [@functools.lru_cache(maxsize=1)] on a function without
    arguments: one slot, filled by the first call that returns. *)
Definition get_stock_data : M DataFrame := λ s,
  match lru_slot s with
  | Some table => (Ok table, s)
  | None =>
      match compute_stock_data s with
      | (Ok table, s') =>
          (Ok table,
           {| lru_slot := Some table; memo_slot := memo_slot s';
              requests := requests s'; ticks := ticks s' |})
      | (Raise e, s') => (Raise e, s')
      end
  end.


(** *** Callbacks *)

(** [df[df['symbol'] == selected_symbol]] *)
Definition filter_symbol (df : DataFrame) (selected_symbol : string)
    : result DataFrame :=
  symbol ← getitem df "symbol";
  let mask := (λ v, match v with
                    | VStr s => bool_decide (s = selected_symbol)
                    | _ => false
                    end) <$> symbol in
  Ok {| columns := columns df; rows := boolean_index mask (rows df) |}.

(** The columns of the [DataTable] of the layout (lines 133-148), each
    with its heading and the label of the cells it shows. *)
Definition table_columns : list (string * string) :=
  [ ("Symbol", "symbol"); ("Index", "index");
    ("Last Traded Price (LTP)", "lastPrice"); ("Previous Close", "previousClose");
    ("Open Price", "open"); ("Day's High", "dayHigh"); ("Day's Low", "dayLow");
    ("Price Change", "priceChange"); ("Percentage Change (%)", "percentageChange");
    ("52-Week High", "yearHigh"); ("52-Week Low", "yearLow");
    ("Market Capitalization", "totalMktCap"); ("P/E Ratio", "pe"); ("VWAP", "vwap") ].

(** [update_table(selected_symbol, n)]; the result is
    [df.to_dict('records')]. *)
Definition update_table (selected_symbol : option string) (n : nat)
    : M (list row) :=
  df ← get_stock_data;
  df ← liftR (match selected_symbol with
              | Some sel =>
                  if bool_decide (sel = "") then Ok df else filter_symbol df sel
              | None => Ok df
              end);
  mret (rows df).

Definition download_as_excel (n_clicks : nat) : M download :=
  df ← get_stock_data;
  mret (send_data_frame (to_excel df) "NSE_Stocks_Sorted_by_52_Week_High.xlsx"
          {| kw_index := Some false; kw_sheet_name := None |}).


(** *** The life of the process

    What the running application does: callbacks fire (the interval
    timer and the dropdown call [update_table], the button calls
    [download_as_excel]), the table is read, and time passes. *)
Inductive call :=
| GetStockData
| UpdateTable (selected_symbol : option string) (n : nat)
| DownloadAsExcel (n_clicks : nat)
| ClockReading.

Definition step (s : process) (c : call) : process :=
  match c with
  | GetStockData => (get_stock_data s).2
  | UpdateTable selected_symbol n => (update_table selected_symbol n s).2
  | DownloadAsExcel n_clicks => (download_as_excel n_clicks s).2
  | ClockReading => (time s).2
  end.

Definition run (cs : list call) (s : process) : process := foldl step s cs.

(** *** Notions the statements below use *)

(** The coercions of lines 51-74 on one row. *)
Definition coerce_stage (cols : list string) (r : row) : row :=
  coerce_optional cols (coerce_mandatory r).

(** The process after the requests [urls], in this order. *)
Definition log_requests (s : process) (urls : list string) : process :=
  foldl log_request s urls.


(** The entry a call finds, when its expiry lies ahead of the reading. *)
Definition fresh_entry (s : process) : option DataFrame :=
  match memo_slot s with
  | Some (expires, df) => if (clock (ticks s) <? expires)%Z then Some df else None
  | None => None
  end.

(** A table the Normalizer/Ranker has returned. *)
Definition ranked_table (t : DataFrame) : Prop := ∃ df, normalize_and_rank df = Ok t.

(** Proof scripts start with this where the routines above play no part. *)
Ltac unused_variables :=
  try clear clock; try clear nsefetch; try clear argsort; try clear floatify.

(** * Properties

    ** Binary64 facts used below *)

Lemma Prim2SF_nan : Prim2SF nan = S754_nan.
Proof. reflexivity. Qed.

Lemma SFcompare_refl (a : spec_float) :
  a ≠ S754_nan → SFcompare a a = Some Eq.
Proof.
  destruct a as [s|s| |s m e]; simpl; try done.
  - by destruct s.
  - intros _.
    change (IntDef.Z.compare e e) with (Z.compare e e).
    change (PosDef.Pos.compare_cont Eq m m) with (Pos.compare m m).
    rewrite Z.compare_refl, Pos.compare_refl. by destruct s.
Qed.

Lemma is_nan_spec (x : float) : is_nan x = true ↔ x = nan.
Proof.
  split.
  - unfold is_nan. rewrite FloatAxioms.eqb_spec. unfold SFeqb. intros H.
    apply Prim2SF_inj. rewrite Prim2SF_nan.
    destruct (Prim2SF x) eqn:E; [| |done|]; by rewrite SFcompare_refl in H.
  - intros ->. reflexivity.
Qed.

Lemma is_nan_false_spec (x : float) : is_nan x = false ↔ Prim2SF x ≠ S754_nan.
Proof.
  split.
  - intros H E. assert (x = nan) as -> by (apply Prim2SF_inj; by rewrite E).
    discriminate.
  - intros H. destruct (is_nan x) eqn:E; [|done].
    apply is_nan_spec in E. subst. done.
Qed.



Lemma div_nan_l (y : float) : (nan / y)%float = nan.
Proof. apply Prim2SF_inj. rewrite div_spec. reflexivity. Qed.



(** The order on floats other than NaN is total. *)
Lemma SFcompare_antisym (a b : spec_float) :
  a ≠ S754_nan → b ≠ S754_nan →
  ∃ c, SFcompare a b = Some c ∧ SFcompare b a = Some (CompOpp c).
Proof.
  intros Ha Hb.
  destruct a as [s1|s1| |s1 m1 e1], b as [s2|s2| |s2 m2 e2]; try done; simpl;
    try (destruct s1; try destruct s2; eexists; split; reflexivity);
    try (destruct s2; eexists; split; reflexivity).
  change (IntDef.Z.compare e2 e1) with (Z.compare e2 e1).
  change (IntDef.Z.compare e1 e2) with (Z.compare e1 e2).
  change (PosDef.Pos.compare_cont Eq m2 m1) with (Pos.compare m2 m1).
  change (PosDef.Pos.compare_cont Eq m1 m2) with (Pos.compare m1 m2).
  rewrite (Z.compare_antisym e1 e2), (Pos.compare_antisym m1 m2).
  destruct s1, s2, (e1 ?= e2)%Z, (m1 ?= m2)%positive; simpl;
    eexists; split; reflexivity.
Qed.

Lemma ltb_false_leb (x y : float) :
  is_nan x = false → is_nan y = false →
  (x <? y)%float = false → (y <=? x)%float = true.
Proof.
  rewrite !is_nan_false_spec, FloatAxioms.ltb_spec, FloatAxioms.leb_spec. unfold SFltb, SFleb.
  intros Hx Hy.
  destruct (SFcompare_antisym _ _ Hx Hy) as (c & -> & ->).
  by destruct c.
Qed.

Lemma leb_false_leb (x y : float) :
  is_nan x = false → is_nan y = false →
  (x <=? y)%float = false → (y <=? x)%float = true.
Proof.
  rewrite !is_nan_false_spec, !FloatAxioms.leb_spec. unfold SFleb.
  intros Hx Hy.
  destruct (SFcompare_antisym _ _ Hx Hy) as (c & -> & ->).
  by destruct c.
Qed.

Lemma SFleb_trans (x y z : spec_float) :
  SFleb x y = true → SFleb y z = true → SFleb x z = true.
Proof.
  unfold SFleb, SFcompare.
  destruct x as [s1|s1| |s1 m1 e1], y as [s2|s2| |s2 m2 e2], z as [s3|s3| |s3 m3 e3];
    try done; try (by destruct s1, s2, s3).
  change (IntDef.Z.compare e1 e2) with (Z.compare e1 e2).
  change (IntDef.Z.compare e2 e3) with (Z.compare e2 e3).
  change (IntDef.Z.compare e1 e3) with (Z.compare e1 e3).
  change (PosDef.Pos.compare_cont Eq m1 m2) with (Pos.compare m1 m2).
  change (PosDef.Pos.compare_cont Eq m2 m3) with (Pos.compare m2 m3).
  change (PosDef.Pos.compare_cont Eq m1 m3) with (Pos.compare m1 m3).
  destruct s1, s2, s3; try done;
    destruct (Z.compare_spec e1 e2), (Z.compare_spec e2 e3), (Z.compare_spec e1 e3);
    try done; try lia;
    destruct (Pos.compare_spec m1 m2), (Pos.compare_spec m2 m3), (Pos.compare_spec m1 m3);
    simpl; try done; try lia.
Qed.

Lemma leb_trans (x y z : float) :
  (x <=? y)%float = true → (y <=? z)%float = true → (x <=? z)%float = true.
Proof. rewrite !FloatAxioms.leb_spec. apply SFleb_trans. Qed.

Lemma leb_refl (x : float) : is_nan x = false → (x <=? x)%float = true.
Proof.
  intros Hx. destruct (x <=? x)%float eqn:E; [done|]. by rewrite leb_false_leb in E.
Qed.

Lemma ltb_leb (x y : float) : (x <? y)%float = true → (x <=? y)%float = true.
Proof.
  rewrite FloatAxioms.ltb_spec, FloatAxioms.leb_spec. unfold SFltb, SFleb.
  by destruct (SFcompare _ _) as [[]|].
Qed.




(** ** [mapR] and [take_idx] *)

Lemma mapR_Ok {A B} (f : A → result B) l bs :
  mapR f l = Ok bs ↔ Forall2 (λ a b, f a = Ok b) l bs.
Proof.
  revert bs. induction l as [|a l IH]; intros bs; simpl.
  - split; [intros [= <-]; constructor | by inversion 1].
  - split.
    + destruct (f a) as [b|e] eqn:Ha; simpl; [|done].
      destruct (mapR f l) as [bs'|e] eqn:Hl; simpl; [|done].
      intros [= <-]. constructor; [done|]. by apply IH.
    + inversion 1 as [|? b ? bs' Hb Hl]; subst. rewrite Hb. simpl.
      apply IH in Hl. rewrite Hl. done.
Qed.

Lemma mapR_fmap_Ok {A B C} (f : B → result C) (g : A → B) (h : A → C) l :
  (∀ a, a ∈ l → f (g a) = Ok (h a)) → mapR f (g <$> l) = Ok (h <$> l).
Proof.
  intros H. apply mapR_Ok. induction l as [|a l IH]; simpl; constructor.
  - apply H. left.
  - apply IH. intros a' Ha'. apply H. by right.
Qed.

Lemma mapR_length {A B} (f : A → result B) l bs :
  mapR f l = Ok bs → length bs = length l.
Proof. intros H%mapR_Ok. symmetry. by eapply Forall2_length. Qed.

Lemma take_idx_Ok {A} (idx : list nat) (l xs : list A) :
  take_idx idx l = Ok xs ↔ Forall2 (λ i x, l !! i = Some x) idx xs.
Proof. unused_variables.
  unfold take_idx. rewrite mapR_Ok.
  split; intros H; eapply Forall2_impl; try exact H;
    intros i x; simpl; destruct (l !! i); naive_solver.
Qed.


Lemma take_idx_app {A} (i1 i2 : list nat) (l : list A) xs :
  take_idx (i1 ++ i2) l = Ok xs ↔
  ∃ x1 x2, xs = x1 ++ x2 ∧ take_idx i1 l = Ok x1 ∧ take_idx i2 l = Ok x2.
Proof.
  rewrite take_idx_Ok. split.
  - intros (x1 & x2 & H1 & H2 & ->)%Forall2_app_inv_l.
    exists x1, x2. by rewrite !take_idx_Ok.
  - intros (x1 & x2 & -> & H1 & H2). rewrite take_idx_Ok in H1, H2.
    by apply Forall2_app.
Qed.

Lemma take_idx_reverse {A} (idx : list nat) (l : list A) xs :
  take_idx idx l = Ok xs → take_idx (reverse idx) l = Ok (reverse xs).
Proof. rewrite !take_idx_Ok. apply Forall2_reverse. Qed.

Lemma take_idx_fmap {A B} (f : A → B) (idx : list nat) (l : list A) ys :
  take_idx idx (f <$> l) = Ok ys ↔
  ∃ xs, take_idx idx l = Ok xs ∧ ys = f <$> xs.
Proof.
  revert ys. induction idx as [|i idx IH]; intros ys.
  - split; [intros [= <-]; by exists [] | by intros (? & [= <-] & ->)].
  - split.
    + intros H%take_idx_Ok. inversion H as [|? y ? ys' Hy Hys]; subst.
      rewrite list_lookup_fmap in Hy.
      destruct (l !! i) as [x|] eqn:Hx; [|done]. injection Hy as <-.
      apply take_idx_Ok, IH in Hys as (xs & Hxs & ->).
      exists (x :: xs). split; [|done].
      apply take_idx_Ok. constructor; [done|]. by apply take_idx_Ok.
    + intros (xs & H%take_idx_Ok & ->). apply take_idx_Ok.
      inversion H as [|? x ? xs' Hx Hxs]; subst. simpl. constructor.
      * by rewrite list_lookup_fmap, Hx.
      * apply take_idx_Ok, IH. exists xs'. by rewrite take_idx_Ok.
Qed.

Lemma take_idx_elem_of {A} (idx : list nat) (l xs : list A) x :
  take_idx idx l = Ok xs → x ∈ xs → x ∈ l.
Proof.
  rewrite take_idx_Ok. intros H Hx.
  apply list_elem_of_lookup in Hx as [j Hj].
  destruct (Forall2_lookup_r _ _ _ _ _ H Hj) as (i & _ & Hi).
  by eapply list_elem_of_lookup_2.
Qed.

Lemma fmap_lookup_seq {A} (d : A) (l : list A) :
  (λ i, default d (l !! i)) <$> seq 0 (length l) = l.
Proof.
  apply list_eq. intros i. rewrite list_lookup_fmap.
  destruct (decide (i < length l)) as [Hi|Hi].
  - rewrite lookup_seq_lt by done. simpl.
    destruct (lookup_lt_is_Some_2 l i Hi) as [x ->]. done.
  - rewrite lookup_seq_ge by lia. simpl. symmetry. apply lookup_ge_None. lia.
Qed.

Lemma take_idx_perm {A} (idx : list nat) (l xs : list A) :
  idx ≡ₚ seq 0 (length l) → take_idx idx l = Ok xs → xs ≡ₚ l.
Proof.
  intros Hp H%take_idx_Ok. destruct l as [|d l].
  { apply Permutation_nil_r in Hp as ->. by inversion H. }
  assert (xs = (λ i, default d ((d :: l) !! i)) <$> idx) as ->.
  { clear Hp. induction H as [|i x idx xs Hi _ IH]; simpl; [done|].
    rewrite Hi. simpl. by f_equal. }
  rewrite Hp. by rewrite fmap_lookup_seq.
Qed.

(** ** Cells and frames *)

Lemma cell_insert_eq c v (r : row) : cell (<[c:=v]> r) c = v.
Proof. unfold cell. by rewrite lookup_insert_eq. Qed.

Lemma cell_insert_ne c c' v (r : row) : c ≠ c' → cell (<[c:=v]> r) c' = cell r c'.
Proof. intros. unfold cell. by rewrite lookup_insert_ne. Qed.

Lemma lookup_reindex cols (r : row) c :
  reindex cols r !! c = if bool_decide (c ∈ cols) then Some (cell r c) else None.
Proof. unused_variables.
  unfold reindex. induction cols as [|c' cols IH].
  - rewrite fmap_nil, list_to_map_nil, lookup_empty.
    rewrite bool_decide_eq_false_2; [done|set_solver].
  - rewrite fmap_cons, list_to_map_cons. simpl.
    destruct (decide (c' = c)) as [->|Hne].
    + rewrite lookup_insert_eq. rewrite bool_decide_eq_true_2; [done|left].
    + rewrite lookup_insert_ne by done. rewrite IH.
      repeat case_bool_decide; set_solver.
Qed.


Lemma add_label_elem c cols : c ∈ cols → add_label c cols = cols.
Proof. intros. unfold add_label. by rewrite bool_decide_eq_true_2. Qed.

Lemma elem_of_add_label c c' cols : c' ∈ add_label c cols ↔ c' = c ∨ c' ∈ cols.
Proof. unused_variables. unfold add_label. case_bool_decide; set_solver. Qed.

Lemma setitem_fmap cols rs c (h : row → value) :
  setitem {| columns := cols; rows := rs |} c (h <$> rs) =
  {| columns := add_label c cols; rows := (λ r, <[c := h r]> r) <$> rs |}.
Proof.
  unfold setitem. cbn [columns rows]. f_equal.
  induction rs as [|r l IH]; simpl; [done|]. by f_equal.
Qed.

Lemma series_op_fmap {A} op (f g h : A → value) l :
  (∀ a, a ∈ l → op (f a) (g a) = Ok (h a)) →
  series_op op (f <$> l) (g <$> l) = Ok (h <$> l).
Proof.
  intros H. unfold series_op.
  replace (zip (f <$> l) (g <$> l)) with ((λ a, (f a, g a)) <$> l).
  - by apply mapR_fmap_Ok.
  - clear H. induction l; simpl; [done|]. by f_equal.
Qed.

Lemma series_op_scalar_fmap {A} op (f h : A → value) k l :
  (∀ a, a ∈ l → op (f a) k = Ok (h a)) →
  series_op_scalar op (f <$> l) k = Ok (h <$> l).
Proof. intros H. unfold series_op_scalar. by apply mapR_fmap_Ok. Qed.

(** ** The Normalizer/Ranker, stage by stage *)

Lemma coerce_column_eq df c :
  coerce_column df c =
  if bool_decide (c ∈ columns df)
  then Ok {| columns := columns df; rows := coerce_row c <$> rows df |}
  else Raise (KeyError c).
Proof.
  unfold coerce_column, getitem.
  case_bool_decide as Hc; simpl; [|done].
  unfold to_numeric. rewrite <- list_fmap_compose.
  destruct df as [cols rs]. cbn [columns rows] in *.
  rewrite (setitem_fmap cols rs c ((λ v, VNum (to_numeric_cell v)) ∘ (λ r, cell r c))).
  by rewrite add_label_elem.
Qed.

Lemma coerce_or_none_eq df c :
  coerce_or_none df c =
  Ok {| columns := add_label c (columns df);
        rows := optional_row (columns df) c <$> rows df |}.
Proof.
  unfold coerce_or_none, optional_row.
  rewrite coerce_column_eq. case_bool_decide as Hc.
  - by rewrite add_label_elem.
  - done.
Qed.

Lemma optional_row_add_label cols c c' r :
  c ≠ c' → optional_row (add_label c' cols) c r = optional_row cols c r.
Proof. unused_variables.
  intros Hne. unfold optional_row.
  assert (c ∈ add_label c' cols ↔ c ∈ cols) as Hiff.
  { rewrite elem_of_add_label. naive_solver. }
  by rewrite (bool_decide_ext _ _ Hiff).
Qed.

Lemma cell_coerce_row c c' r :
  cell (coerce_row c r) c' =
  if bool_decide (c = c') then VNum (to_numeric_cell (cell r c)) else cell r c'.
Proof.
  unfold coerce_row. case_bool_decide as H.
  - subst. apply cell_insert_eq.
  - by apply cell_insert_ne.
Qed.

Lemma cell_optional_row cols c c' r :
  cell (optional_row cols c r) c' =
  if bool_decide (c = c')
  then (if bool_decide (c ∈ cols) then VNum (to_numeric_cell (cell r c)) else VNone)
  else cell r c'.
Proof.
  unfold optional_row.
  destruct (bool_decide (c ∈ cols)).
  - apply cell_coerce_row.
  - case_bool_decide; subst; [apply cell_insert_eq | by apply cell_insert_ne].
Qed.

Lemma to_numeric_cell_idem v :
  to_numeric_cell (VNum (to_numeric_cell v)) = to_numeric_cell v.
Proof. done. Qed.

Lemma cell_foldl_coerce cs r c :
  cell (foldl (λ r c, coerce_row c r) r cs) c =
  if bool_decide (c ∈ cs) then VNum (to_numeric_cell (cell r c)) else cell r c.
Proof. unused_variables.
  induction cs as [|c' cs IH] using rev_ind.
  - cbn [foldl]. case_bool_decide as H; [by apply elem_of_nil in H|done].
  - rewrite foldl_snoc, cell_coerce_row.
    destruct (decide (c' = c)) as [->|Hne].
    + rewrite bool_decide_eq_true_2 by done.
      rewrite (bool_decide_eq_true_2 (c ∈ cs ++ [c])) by set_solver.
      rewrite IH. by case_bool_decide.
    + rewrite bool_decide_eq_false_2 by done. rewrite IH.
      apply (f_equal (λ b : bool, if b then _ else _)).
      apply bool_decide_ext. set_solver.
Qed.

Lemma cell_foldl_optional cols cs r c :
  cell (foldl (λ r c, optional_row cols c r) r cs) c =
  if bool_decide (c ∈ cs)
  then (if bool_decide (c ∈ cols) then VNum (to_numeric_cell (cell r c)) else VNone)
  else cell r c.
Proof. unused_variables.
  induction cs as [|c' cs IH] using rev_ind.
  - cbn [foldl]. case_bool_decide as H; [by apply elem_of_nil in H|done].
  - rewrite foldl_snoc, cell_optional_row.
    destruct (decide (c' = c)) as [->|Hne].
    + rewrite bool_decide_eq_true_2 by done.
      rewrite (bool_decide_eq_true_2 (c ∈ cs ++ [c])) by set_solver.
      rewrite IH. by repeat case_bool_decide.
    + rewrite bool_decide_eq_false_2 by done. rewrite IH.
      apply (f_equal (λ b : bool, if b then _ else _)).
      apply bool_decide_ext. set_solver.
Qed.

Lemma cell_coerce_mandatory r c :
  cell (coerce_mandatory r) c =
  if bool_decide (c ∈ mandatory_columns)
  then VNum (to_numeric_cell (cell r c)) else cell r c.
Proof. apply cell_foldl_coerce. Qed.

Lemma cell_coerce_optional cols r c :
  cell (coerce_optional cols r) c =
  if bool_decide (c ∈ optional_columns)
  then (if bool_decide (c ∈ cols) then VNum (to_numeric_cell (cell r c)) else VNone)
  else cell r c.
Proof. apply cell_foldl_optional. Qed.

Lemma cell_derive_row_numeric cols r c :
  c ∈ mandatory_columns →
  cell (derive_row cols r) c = VNum (to_numeric_cell (cell r c)).
Proof. unused_variables.
  intros Hc. unfold derive_row, percent_row, price_row.
  assert (c ≠ "percentageChange" ∧ c ≠ "priceChange" ∧ c ∉ optional_columns)
    as (H1 & H2 & H3).
  { unfold mandatory_columns, optional_columns in *. set_solver. }
  rewrite !cell_insert_ne by done.
  rewrite cell_coerce_optional, bool_decide_eq_false_2 by done.
  by rewrite cell_coerce_mandatory, bool_decide_eq_true_2.
Qed.

Lemma cell_coerce_stage cols r c :
  c ∈ mandatory_columns →
  cell (coerce_stage cols r) c = VNum (to_numeric_cell (cell r c)).
Proof. unused_variables.
  intros Hc. unfold coerce_stage.
  assert (c ∉ optional_columns) as H3.
  { unfold mandatory_columns, optional_columns in *. set_solver. }
  rewrite cell_coerce_optional, bool_decide_eq_false_2 by done.
  by rewrite cell_coerce_mandatory, bool_decide_eq_true_2.
Qed.

Lemma elem_of_optional_labels cols c :
  c ∈ foldl (λ cols c, add_label c cols) cols optional_columns ↔
  c ∈ optional_columns ∨ c ∈ cols.
Proof. unused_variables.
  unfold optional_columns. simpl. rewrite !elem_of_add_label. set_solver.
Qed.

Lemma elem_of_derived_columns cols c :
  c ∈ derived_columns cols ↔
  c = "percentageChange" ∨ c = "priceChange" ∨ c ∈ optional_columns ∨ c ∈ cols.
Proof. unused_variables.
  unfold derived_columns.
  rewrite !elem_of_add_label, elem_of_optional_labels. tauto.
Qed.

Lemma getitem_elem df c :
  c ∈ columns df → getitem df c = Ok ((λ r, cell r c) <$> rows df).
Proof. intros. unfold getitem. by rewrite bool_decide_eq_true_2. Qed.

Lemma normalize_and_rank_eq df :
  Forall (λ c, c ∈ columns df) mandatory_columns →
  normalize_and_rank df =
  (indexer ← nargsort (year_high <$> rows df) false;
   rs ← take_idx indexer (derive_row (columns df) <$> rows df);
   select_columns {| columns := derived_columns (columns df); rows := rs |}
     output_columns).
Proof.
  intros Hm. unfold normalize_and_rank. rewrite Forall_forall in Hm.
  repeat (rewrite coerce_column_eq;
          rewrite bool_decide_eq_true_2
            by (cbn [columns]; apply Hm; decide_true);
          cbn [mbind result_bind rbind]).
  rewrite !coerce_or_none_eq. cbn [mbind result_bind rbind columns rows].
  rewrite coerce_or_none_eq. cbn [mbind result_bind rbind columns rows].
  rewrite coerce_or_none_eq. cbn [mbind result_bind rbind columns rows].
  match goal with |- context [mkDataFrame ?cc ?rs] =>
    replace rs with (coerce_stage (columns df) <$> rows df);
    [ change cc with (foldl (λ cols c, add_label c cols) (columns df) optional_columns)
    | rewrite <- !list_fmap_compose; apply list_fmap_ext; intros _ r _;
      unfold coerce_stage, coerce_optional, coerce_mandatory, optional_columns,
        mandatory_columns; simpl;
      by rewrite !optional_row_add_label by done ]
  end.
  set (cols1 := foldl _ _ _).
  assert (∀ c, c ∈ mandatory_columns → c ∈ cols1) as Hm1.
  { intros c Hc. apply elem_of_optional_labels. right. by apply Hm. }
  set (R := coerce_stage (columns df) <$> rows df).
  assert (∀ a c, a ∈ R → c ∈ mandatory_columns → ∃ r, a = coerce_stage (columns df) r
            ∧ cell a c = VNum (to_numeric_cell (cell r c))) as HR.
  { intros a c (r & -> & _)%list_elem_of_fmap Hc. exists r. split; [done|].
    by apply cell_coerce_stage. }
  (* priceChange *)
  rewrite !(getitem_elem {| columns := cols1; rows := R |})
    by (apply Hm1; decide_true).
  cbn [mbind result_bind rbind columns rows].
  rewrite (series_op_fmap vsub _ _
    (λ r, VNum (number (cell r "lastPrice") - number (cell r "previousClose"))%float)).
  2:{ intros a Ha.
      destruct (HR a "lastPrice" Ha) as (r & _ & ->);
        [decide_true|].
      destruct (HR a "previousClose" Ha) as (r' & _ & ->);
        [decide_true|]. done. }
  cbn [mbind result_bind rbind].
  rewrite setitem_fmap.
  change (λ r : row, <["priceChange" := _]> r) with price_row.
  (* percentageChange *)
  rewrite !(getitem_elem {| columns := add_label "priceChange" cols1;
                            rows := price_row <$> R |})
    by (apply elem_of_add_label; first [by left | right; apply Hm1;
          decide_true]).
  cbn [mbind result_bind rbind columns rows].
  rewrite (series_op_fmap vdiv _ _
    (λ r, VNum (number (cell r "priceChange") / number (cell r "previousClose"))%float)).
  2:{ intros a (a0 & -> & Ha0)%list_elem_of_fmap. unfold price_row.
      rewrite cell_insert_eq, cell_insert_ne by done.
      destruct (HR a0 "previousClose" Ha0) as (r' & _ & ->);
        [decide_true|]. done. }
  cbn [mbind result_bind rbind].
  rewrite (series_op_scalar_fmap vmul _
    (λ r, VNum (number (cell r "priceChange") / number (cell r "previousClose")
                * 100)%float)) by done.
  cbn [mbind result_bind rbind].
  rewrite setitem_fmap.
  change (λ r : row, <["percentageChange" := _]> r) with percent_row.
  change (add_label "percentageChange" (add_label "priceChange" cols1))
    with (derived_columns (columns df)).
  (* sort_values *)
  unfold sort_values.
  rewrite getitem_elem
    by (apply elem_of_derived_columns; do 3 right; apply Hm;
        decide_true).
  cbn [mbind result_bind rbind columns rows].
  replace (percent_row <$> (price_row <$> R))
    with (derive_row (columns df) <$> rows df)
    by (unfold R; by rewrite <- !list_fmap_compose).
  rewrite <- list_fmap_compose.
  rewrite (mapR_fmap_Ok as_float64 _ year_high).
  2:{ intros r _. unfold compose, year_high.
      rewrite cell_derive_row_numeric; [done|decide_true]. }
  cbn [mbind result_bind rbind].
  destruct (nargsort _ false) as [indexer|e]; cbn [mbind result_bind rbind]; [|done].
  by destruct (take_idx indexer _).
Qed.

Lemma normalize_and_rank_KeyError df :
  ¬ Forall (λ c, c ∈ columns df) mandatory_columns →
  ∃ c, c ∈ mandatory_columns ∧ c ∉ columns df ∧
       normalize_and_rank df = Raise (KeyError c).
Proof.
  intros Hm. unfold normalize_and_rank.
  repeat (rewrite coerce_column_eq; cbn [columns];
          let H := fresh "H" in
          case_bool_decide as H;
          [ cbn [mbind result_bind rbind]
          | eexists; split; [|split; [exact H|done]];
            decide_true ]).
  destruct Hm. unfold mandatory_columns.
  repeat (constructor; [assumption|]). constructor.
Qed.

Lemma select_output_eq cols rs :
  Forall (λ c, c ∈ cols) mandatory_columns →
  select_columns {| columns := derived_columns cols; rows := rs |} output_columns =
  if bool_decide ("symbol" ∈ cols)
  then if bool_decide ("index" ∈ cols)
       then Ok {| columns := output_columns; rows := reindex output_columns <$> rs |}
       else Raise (KeyError "index")
  else Raise (KeyError "symbol").
Proof. unused_variables.
  intros Hm. rewrite Forall_forall in Hm.
  unfold select_columns, output_columns. cbn [columns rows].
  assert (∀ c, c ∈ mandatory_columns ∨ c ∈ optional_columns ∨ c = "priceChange"
             ∨ c = "percentageChange" → ¬ (c ∉ derived_columns cols)) as Hin.
  { intros c Hc Hn. apply Hn, elem_of_derived_columns.
    destruct Hc as [Hc|[Hc|[->| ->]]]; auto. }
  assert (∀ c, c ∉ optional_columns → c ≠ "priceChange" → c ≠ "percentageChange" →
               (c ∉ derived_columns cols ↔ c ∉ cols)) as Hout.
  { intros c H1 H2 H3. rewrite elem_of_derived_columns. tauto. }
  assert ("symbol" ∉ derived_columns cols ↔ "symbol" ∉ cols) as Hs.
  { apply Hout; decide_true. }
  assert ("index" ∉ derived_columns cols ↔ "index" ∉ cols) as Hi.
  { apply Hout; decide_true. }
  repeat case_bool_decide.
  - rewrite filter_cons_False by tauto. rewrite filter_cons_False by tauto.
    repeat (rewrite filter_cons_False by (apply Hin; decide_true)).
    done.
  - rewrite filter_cons_False by tauto. rewrite filter_cons_True by tauto. done.
  - rewrite filter_cons_True by tauto. done.
Qed.

(** *** Boolean masks *)

Lemma boolean_index_fmap {A B} (f : B → bool) (g : A → B) (l : list A) :
  boolean_index (f <$> (g <$> l)) l = filter (λ x, f (g x) = true) l.
Proof.
  unfold boolean_index. induction l as [|x l IH]; simpl; [done|].
  rewrite !filter_cons. simpl. destruct (decide (f (g x) = true)); simpl; by f_equal.
Qed.

Lemma boolean_index_seq {A} (mask : list bool) (pre l : list A) :
  length mask = length l →
  take_idx (boolean_index mask (seq (length pre) (length l))) (pre ++ l)
  = Ok (boolean_index mask l).
Proof.
  unfold boolean_index. intros Hlen. apply take_idx_Ok.
  revert pre mask Hlen. induction l as [|x l IH]; intros pre [|b mask] Hlen;
    simpl in *; try done; try constructor.
  injection Hlen as Hlen.
  assert (Forall2 (λ i y, (pre ++ x :: l) !! i = Some y)
            (filter (λ p, p.1 = true) (zip mask (seq (S (length pre)) (length l)))).*2
            (filter (λ p, p.1 = true) (zip mask l)).*2) as Htl.
  { specialize (IH (pre ++ [x]) mask Hlen).
    rewrite length_app, Nat.add_1_r, <- app_assoc in IH. exact IH. }
  rewrite !filter_cons. simpl. destruct (decide (b = true)); simpl; [|done].
  constructor; [|done]. by rewrite lookup_app_r, Nat.sub_diag.
Qed.

Lemma take_boolean_index {A} (mask : list bool) (l : list A) :
  length mask = length l →
  take_idx (boolean_index mask (seq 0 (length l))) l = Ok (boolean_index mask l).
Proof. intros H. by apply (boolean_index_seq mask [] l). Qed.

Lemma take_idx_compose {A} (p idx ix : list nat) (l ys : list A) zs :
  take_idx p idx = Ok ix → take_idx idx l = Ok ys →
  take_idx ix l = Ok zs ↔ take_idx p ys = Ok zs.
Proof.
  rewrite !take_idx_Ok. intros Hp Hidx. revert zs.
  induction Hp as [|j i p ix Hj _ IH]; intros zs.
  - split; inversion 1; constructor.
  - destruct (Forall2_lookup_l _ _ _ _ _ Hidx Hj) as (y & Hy & Hl).
    split; inversion 1 as [|? z ? zs' Hz Hzs]; subst; constructor;
      try (by apply IH); congruence.
Qed.

Lemma take_idx_total {A} (idx : list nat) (l : list A) :
  Forall (λ i, i < length l) idx → ∃ xs, take_idx idx l = Ok xs.
Proof.
  induction 1 as [|i idx Hi _ [xs IH]].
  - by exists [].
  - destruct (lookup_lt_is_Some_2 l i Hi) as [x Hx]. exists (x :: xs).
    apply take_idx_Ok. constructor; [done|]. by apply take_idx_Ok.
Qed.

Lemma take_idx_bound {A} (idx : list nat) (l xs : list A) :
  take_idx idx l = Ok xs → Forall (λ i, i < length l) idx.
Proof.
  rewrite take_idx_Ok. induction 1 as [|i x idx xs Hi _ IH]; constructor; [|done].
  by eapply lookup_lt_Some.
Qed.

Lemma take_idx_length {A} (idx : list nat) (l xs : list A) :
  take_idx idx l = Ok xs → length xs = length idx.
Proof. apply mapR_length. Qed.

Lemma boolean_index_values {A B} (mask : list bool) (g : A → B) (l : list A) :
  boolean_index mask (g <$> l) = g <$> boolean_index mask l.
Proof.
  unfold boolean_index. revert mask. induction l as [|x l IH]; intros [|b mask];
    simpl; try done.
  rewrite !filter_cons. simpl. destruct (decide (b = true)); simpl; by rewrite IH.
Qed.

(** *** [nargsort], descending, on the rows it orders *)

Lemma present_rows_mask rs :
  boolean_index (negb <$> (is_nan <$> (year_high <$> rs))) rs = present_rows rs.
Proof.
  rewrite <- list_fmap_compose, boolean_index_fmap. unfold present_rows.
  apply list_filter_iff. intros r. unfold compose. by destruct (is_nan _).
Qed.

Lemma missing_rows_mask rs :
  boolean_index (is_nan <$> (year_high <$> rs)) rs = missing_rows rs.
Proof. by rewrite boolean_index_fmap. Qed.

Lemma nargsort_rows rs out :
  (∃ indexer, nargsort (year_high <$> rs) false = Ok indexer ∧
              take_idx indexer rs = Ok out) ↔
  (∃ sr, take_idx (argsort (reverse (year_high <$> present_rows rs)))
           (reverse (present_rows rs)) = Ok sr ∧
         out = reverse sr ++ missing_rows rs).
Proof.
  unfold nargsort. cbv zeta.
  set (items := year_high <$> rs).
  set (mask := is_nan <$> items).
  assert (length items = length rs) as Hlen by (unfold items; by rewrite length_fmap).
  rewrite Hlen.
  assert (take_idx (boolean_index (negb <$> mask) (seq 0 (length rs))) rs
          = Ok (present_rows rs)) as Hpres.
  { unfold mask, items. rewrite take_boolean_index; [by rewrite present_rows_mask|].
    by rewrite !length_fmap. }
  assert (take_idx (boolean_index mask (seq 0 (length rs))) rs
          = Ok (missing_rows rs)) as Hmiss.
  { unfold mask, items. rewrite take_boolean_index; [by rewrite missing_rows_mask|].
    by rewrite !length_fmap. }
  assert (boolean_index (negb <$> mask) items = year_high <$> present_rows rs) as ->.
  { unfold mask, items. by rewrite boolean_index_values, present_rows_mask. }
  set (nni := boolean_index (negb <$> mask) (seq 0 (length rs))) in *.
  set (ni := boolean_index mask (seq 0 (length rs))) in *.
  set (p := argsort _).
  apply take_idx_reverse in Hpres as Hrev.
  split.
  - intros (indexer & Hn & Ht).
    destruct (take_idx p (reverse nni)) as [ix|e] eqn:Hix;
      cbn [mbind result_bind rbind] in Hn; [|done].
    injection Hn as <-.
    apply take_idx_app in Ht as (x1 & x2 & -> & H1 & H2).
    rewrite Hmiss in H2. injection H2 as <-.
    exists (reverse x1). split; [|by rewrite reverse_involutive].
    apply (take_idx_compose _ _ _ _ _ _ Hix Hrev).
    apply take_idx_reverse in H1. by rewrite reverse_involutive in H1.
  - intros (sr & Hsr & ->).
    assert (length (reverse nni) = length (reverse (present_rows rs))) as Hl.
    { rewrite !length_reverse. symmetry. by eapply take_idx_length. }
    destruct (take_idx_total p (reverse nni)) as [ix Hix].
    { rewrite Hl. by eapply take_idx_bound. }
    exists (reverse ix ++ ni). rewrite Hix. cbn [mbind result_bind rbind].
    split; [done|]. apply take_idx_app. exists (reverse sr), (missing_rows rs).
    split; [done|]. split; [|done].
    apply take_idx_reverse. by apply (take_idx_compose _ _ _ _ _ _ Hix Hrev).
Qed.

(** ** What a source row becomes *)

Lemma lookup_norm_row cols r c :
  c ∈ output_columns → norm_row cols r !! c = Some (cell (derive_row cols r) c).
Proof.
  intros Hc. unfold norm_row. by rewrite lookup_reindex, bool_decide_eq_true_2.
Qed.

Lemma norm_row_numeric cols r c :
  c ∈ mandatory_columns → c ≠ "totalTradedVolume" →
  norm_row cols r !! c = Some (VNum (to_numeric_cell (cell r c))).
Proof. unused_variables.
  intros Hc Hne. rewrite lookup_norm_row, cell_derive_row_numeric; [done..|].
  unfold mandatory_columns, output_columns in *. set_solver.
Qed.

Lemma norm_row_dropped cols r : norm_row cols r !! "totalTradedVolume" = None.
Proof.
  unfold norm_row. rewrite lookup_reindex, bool_decide_eq_false_2; [done|].
  decide_true.
Qed.


Lemma norm_row_label cols r c :
  c ∈ ["symbol"; "index"] → norm_row cols r !! c = Some (cell r c).
Proof. unused_variables.
  intros Hc. rewrite lookup_norm_row by (unfold output_columns; set_solver).
  unfold derive_row, percent_row, price_row.
  rewrite !cell_insert_ne by set_solver.
  rewrite cell_coerce_optional, bool_decide_eq_false_2
    by (unfold optional_columns; set_solver).
  rewrite cell_coerce_mandatory, bool_decide_eq_false_2; [done|].
  unfold mandatory_columns. set_solver.
Qed.



Lemma norm_row_year_high cols r :
  cell (norm_row cols r) "yearHigh" = VNum (year_high r).
Proof.
  unfold cell. rewrite norm_row_numeric; [done|decide_true|done].
Qed.

(** ** The Normalizer/Ranker as a whole *)

Lemma normalize_and_rank_Ok df out :
  normalize_and_rank df = Ok out ↔
  Forall (λ c, c ∈ columns df) (mandatory_columns ++ ["symbol"; "index"]) ∧
  ∃ sr,
    take_idx (argsort (reverse (year_high <$> present_rows (rows df))))
      (reverse (present_rows (rows df))) = Ok sr ∧
    out = {| columns := output_columns;
             rows := norm_row (columns df) <$> (reverse sr ++ missing_rows (rows df)) |}.
Proof.
  rewrite Forall_app.
  destruct (decide (Forall (λ c, c ∈ columns df) mandatory_columns)) as [Hm|Hm].
  2:{ destruct (normalize_and_rank_KeyError df Hm) as (c & _ & _ & ->). naive_solver. }
  rewrite normalize_and_rank_eq by done. split.
  - destruct (nargsort _ false) as [indexer|e] eqn:Hn;
      cbn [mbind result_bind rbind]; [|done].
    destruct (take_idx indexer _) as [rs'|e] eqn:Ht;
      cbn [mbind result_bind rbind]; [|done].
    apply take_idx_fmap in Ht as (rs & Ht & ->).
    rewrite select_output_eq by done.
    repeat case_bool_decide; try done. intros [= <-].
    split; [split; [done|by repeat constructor]|].
    destruct (proj1 (nargsort_rows (rows df) rs)) as (sr & Hsr & ->); [by eauto|].
    exists sr. split; [done|]. by rewrite <- list_fmap_compose.
  - intros ((_ & Hl) & sr & Hsr & ->).
    destruct (proj2 (nargsort_rows (rows df) (reverse sr ++ missing_rows (rows df))))
      as (indexer & -> & Ht); [by eauto|].
    cbn [mbind result_bind rbind].
    rewrite (proj2 (take_idx_fmap (derive_row (columns df)) indexer (rows df) _))
      by eauto.
    cbn [mbind result_bind rbind]. rewrite select_output_eq by done.
    inversion Hl as [|?? Hs Hl']; subst. inversion Hl' as [|?? Hi _]; subst.
    rewrite !bool_decide_eq_true_2 by done. by rewrite <- list_fmap_compose.
Qed.



(** ** Derived metrics (claims C1 and C10) *)




(** ** Ranking under [argsort]'s contract (claims C2, C3, C5) *)

Lemma filter_fmap {A B} (P : B → Prop) `{!∀ b, Decision (P b)} (f : A → B) (l : list A) :
  filter P (f <$> l) = f <$> filter (λ a, P (f a)) l.
Proof.
  induction l as [|a l IH]; [done|].
  rewrite fmap_cons, !filter_cons, IH. by destruct (decide (P (f a))).
Qed.

Lemma filter_all {A} (P : A → Prop) `{!∀ a, Decision (P a)} (l : list A) :
  Forall P l → filter P l = l.
Proof.
  induction 1 as [|a l Ha _ IH]; [done|]. rewrite filter_cons_True by done.
  by rewrite IH.
Qed.

Lemma filter_none {A} (P : A → Prop) `{!∀ a, Decision (P a)} (l : list A) :
  Forall (λ a, ¬ P a) l → filter P l = [].
Proof.
  induction 1 as [|a l Ha _ IH]; [done|]. by rewrite filter_cons_False.
Qed.

Lemma present_missing_perm rs : present_rows rs ++ missing_rows rs ≡ₚ rs.
Proof.
  unfold present_rows, missing_rows.
  rewrite <- (filter_app_complement (λ r, is_nan (year_high r) = false) rs) at 3.
  f_equiv. apply reflexive_eq, list_filter_iff. intros r.
  by destruct (is_nan _).
Qed.

(** The rows the sort hands back before the missing ones: taken from the
    present rows, each of them with a 52-week high. *)
Lemma ranked_present rs sr :
  take_idx (argsort (reverse (year_high <$> present_rows rs)))
    (reverse (present_rows rs)) = Ok sr →
  Forall (λ r, is_nan (year_high r) = false) sr.
Proof.
  intros H. apply Forall_forall. intros r Hr.
  pose proof (take_idx_elem_of _ _ _ _ H Hr) as Hr1.
  rewrite elem_of_reverse in Hr1. unfold present_rows in Hr1.
  by apply list_elem_of_filter in Hr1 as [? _].
Qed.

Lemma missing_rows_nan rs : Forall (λ r, is_nan (year_high r) = true) (missing_rows rs).
Proof.
  apply Forall_forall. intros r Hr. unfold missing_rows in Hr.
  by apply list_elem_of_filter in Hr as [? _].
Qed.

Section Contract.

(** numpy's contract for [argsort] on an array without NaN: a permutation
    of the positions along which the values do not decrease. *)
Hypothesis argsort_perm :
  ∀ ks, Forall (λ k, is_nan k = false) ks → argsort ks ≡ₚ seq 0 (length ks).
Hypothesis argsort_sorted :
  ∀ ks i a b x y, Forall (λ k, is_nan k = false) ks →
    argsort ks !! i = Some a → argsort ks !! S i = Some b →
    ks !! a = Some x → ks !! b = Some y → (x <=? y)%float = true.

Lemma present_keys_nonnan rs :
  Forall (λ k, is_nan k = false) (reverse (year_high <$> present_rows rs)).
Proof.
  apply Forall_reverse, Forall_fmap, Forall_forall. intros r Hr.
  unfold present_rows in Hr. by apply list_elem_of_filter in Hr as [? _].
Qed.

Lemma ranked_exists rs :
  ∃ sr, take_idx (argsort (reverse (year_high <$> present_rows rs)))
          (reverse (present_rows rs)) = Ok sr ∧
        sr ≡ₚ present_rows rs.
Proof using argsort_perm.
  pose proof (argsort_perm _ (present_keys_nonnan rs)) as Hp.
  rewrite length_reverse, length_fmap, <- (length_reverse (present_rows rs)) in Hp.
  destruct (take_idx_total (argsort (reverse (year_high <$> present_rows rs)))
              (reverse (present_rows rs))) as [sr Hsr].
  { apply Forall_forall. intros i Hi. rewrite Hp in Hi.
    apply elem_of_seq in Hi. lia. }
  exists sr. split; [done|].
  rewrite (take_idx_perm _ _ _ Hp Hsr). apply reverse_Permutation.
Qed.

Lemma ranked_ascending rs sr i r1 r2 :
  take_idx (argsort (reverse (year_high <$> present_rows rs)))
    (reverse (present_rows rs)) = Ok sr →
  sr !! i = Some r1 → sr !! S i = Some r2 →
  (year_high r1 <=? year_high r2)%float = true.
Proof using argsort_sorted.
  intros H%take_idx_Ok H1 H2.
  destruct (Forall2_lookup_r _ _ _ _ _ H H1) as (a & Ha & Hra).
  destruct (Forall2_lookup_r _ _ _ _ _ H H2) as (b & Hb & Hrb).
  eapply (argsort_sorted _ i a b); [apply present_keys_nonnan|done..| |].
  - by rewrite <- fmap_reverse, list_lookup_fmap, Hra.
  - by rewrite <- fmap_reverse, list_lookup_fmap, Hrb.
Qed.

(** With the labels the stage reads in place it returns, and its rows
    are the images of the source rows, none dropped or repeated. *)
Lemma normalize_and_rank_total df :
  Forall (λ c, c ∈ columns df) (mandatory_columns ++ ["symbol"; "index"]) →
  ∃ out src,
    normalize_and_rank df = Ok out ∧
    columns out = output_columns ∧
    rows out = norm_row (columns df) <$> src ∧
    src ≡ₚ rows df.
Proof using argsort_perm.
  intros Hc. destruct (ranked_exists (rows df)) as (sr & Hsr & Hperm).
  eexists _, (reverse sr ++ missing_rows (rows df)). split.
  { apply normalize_and_rank_Ok. split; [done|]. by exists sr. }
  cbn [columns rows]. split; [done|]. split; [done|].
  rewrite reverse_Permutation, Hperm. apply present_missing_perm.
Qed.

Lemma ranked_position rs sr (i : nat) r :
  take_idx (argsort (reverse (year_high <$> present_rows rs)))
    (reverse (present_rows rs)) = Ok sr →
  (reverse sr ++ missing_rows rs) !! i = Some r →
  if is_nan (year_high r) then (length sr ≤ i)%nat else (i < length sr)%nat.
Proof.
  intros Hsr Hi.
  pose proof (ranked_present rs sr Hsr) as Hp. rewrite Forall_forall in Hp.
  pose proof (missing_rows_nan rs) as Hn. rewrite Forall_forall in Hn.
  destruct (decide (i < length sr)) as [Hlt|Hge].
  - rewrite lookup_app_l in Hi by (by rewrite length_reverse).
    apply list_elem_of_lookup_2, elem_of_reverse, Hp in Hi. by rewrite Hi.
  - rewrite lookup_app_r in Hi by (rewrite length_reverse; lia).
    apply list_elem_of_lookup_2, Hn in Hi. rewrite Hi. lia.
Qed.

(** C2 (as amended): the output is ordered by [yearHigh] descending on
    every adjacent pair of present values; every row with a missing
    [yearHigh] comes after every row with a present one; the rows with a
    missing [yearHigh] keep their source order; and the output rows are
    the source rows' images, none dropped or repeated.  The order among
    rows of equal present [yearHigh] is left to [argsort]. *)
Theorem C2_ranked_by_yearHigh df out :
  normalize_and_rank df = Ok out →
  (∀ i r1 r2 x y,
     rows out !! i = Some r1 → rows out !! S i = Some r2 →
     r1 !! "yearHigh" = Some (VNum x) → r2 !! "yearHigh" = Some (VNum y) →
     is_nan x = false → is_nan y = false → (y <=? x)%float = true) ∧
  (∀ i j ri rj,
     rows out !! i = Some ri → rows out !! j = Some rj →
     isna (cell ri "yearHigh") = true → isna (cell rj "yearHigh") = false →
     (j < i)%nat) ∧
  filter (λ r, isna (cell r "yearHigh") = true) (rows out)
    = norm_row (columns df) <$> missing_rows (rows df) ∧
  rows out ≡ₚ norm_row (columns df) <$> rows df.
Proof using argsort_perm argsort_sorted.
  intros (_ & sr & Hsr & ->)%normalize_and_rank_Ok. cbn [rows].
  set (L := reverse sr ++ missing_rows (rows df)).
  assert (∀ i r, (norm_row (columns df) <$> L) !! i = Some r →
            ∃ r0, L !! i = Some r0 ∧ r = norm_row (columns df) r0) as Hsrc.
  { intros i r Hi. rewrite list_lookup_fmap in Hi.
    destruct (L !! i) as [r0|]; [|done]. injection Hi as <-. by exists r0. }
  repeat split.
  - intros i r1 r2 x y H1 H2 Hx Hy Hnx Hny.
    destruct (Hsrc _ _ H1) as (a & Ha & ->). destruct (Hsrc _ _ H2) as (b & Hb & ->).
    rewrite norm_row_numeric in Hx, Hy by decide_true.
    injection Hx as <-. injection Hy as <-.
    pose proof (ranked_position _ _ _ _ Hsr Ha) as Pa.
    pose proof (ranked_position _ _ _ _ Hsr Hb) as Pb.
    fold (year_high a) in *. fold (year_high b) in *. rewrite Hnx in Pa. rewrite Hny in Pb.
    unfold L in Ha, Hb.
    rewrite lookup_app_l in Ha, Hb by (by rewrite length_reverse).
    apply reverse_lookup_Some in Ha as [Ha _]. apply reverse_lookup_Some in Hb as [Hb _].
    replace (length sr - S i) with (S (length sr - S (S i))) in Ha by lia.
    by eapply ranked_ascending.
  - intros i j ri rj Hi Hj Hni Hnj.
    destruct (Hsrc _ _ Hi) as (a & Ha & ->). destruct (Hsrc _ _ Hj) as (b & Hb & ->).
    rewrite norm_row_year_high in Hni, Hnj. cbn [isna] in Hni, Hnj.
    pose proof (ranked_position _ _ _ _ Hsr Ha) as Pa.
    pose proof (ranked_position _ _ _ _ Hsr Hb) as Pb.
    rewrite Hni in Pa. rewrite Hnj in Pb. lia.
  - rewrite filter_fmap. f_equal. unfold L. rewrite filter_app.
    rewrite filter_none, filter_all; [done| |].
    + eapply Forall_impl; [apply missing_rows_nan|]. intros r Hr. cbn beta.
      by rewrite norm_row_year_high.
    + apply Forall_reverse. eapply Forall_impl; [exact (ranked_present _ _ Hsr)|].
      intros r Hr. cbn beta. rewrite norm_row_year_high. cbn [isna]. by rewrite Hr.
  - apply fmap_Permutation. unfold L.
    destruct (ranked_exists (rows df)) as (sr' & Hsr' & Hperm).
    rewrite Hsr in Hsr'. injection Hsr' as <-.
    rewrite reverse_Permutation, Hperm. apply present_missing_perm.
Qed.




End Contract.

(** ** The Fetcher (claims C6 and C7) *)










Lemma fetch_index_eq index s :
  fetch_index index s =
  match nsefetch (requests s) (url_of index) with
  | Ok data =>
      match resp_data data with
      | Some recs => (Ok (tag index recs), log_request s (url_of index))
      | None => (Raise (KeyError "data"), log_request s (url_of index))
      end
  | Raise e => (Raise e, log_request s (url_of index))
  end.
Proof.
  unfold fetch_index, nsefetch_call, mbind, M_bind, liftR, mret, M_ret.
  destruct (nsefetch _ _) as [[[recs|]]|e]; done.
Qed.

Lemma requests_log_requests s urls :
  requests (log_requests s urls) = requests s ++ urls ∧
  lru_slot (log_requests s urls) = lru_slot s ∧
  memo_slot (log_requests s urls) = memo_slot s ∧
  ticks (log_requests s urls) = ticks s.
Proof.
  unfold log_requests. revert s. induction urls as [|u urls IH]; intros s; simpl.
  - by rewrite app_nil_r.
  - destruct (IH (log_request s u)) as (-> & -> & -> & ->). simpl.
    by rewrite <- app_assoc.
Qed.




Lemma fetch_loop_Raise l acc s k index e :
  l !! k = Some index →
  (∀ j idx, (j < k)%nat → l !! j = Some idx →
     ∃ recs, nsefetch (requests s ++ (url_of <$> take j l)) (url_of idx)
             = Ok {| resp_data := Some recs |}) →
  nsefetch (requests s ++ (url_of <$> take k l)) (url_of index) = Raise e →
  fetch_loop l acc s = (Raise e, log_requests s (url_of <$> take (S k) l)).
Proof.
  revert acc s k. induction l as [|i0 l IH]; intros acc s k; [done|].
  destruct k as [|k]; simpl.
  - intros [= <-] _. rewrite app_nil_r. intros Hn.
    unfold mbind, M_bind. by rewrite fetch_index_eq, Hn.
  - intros Hk Hbefore Hn.
    destruct (Hbefore 0 i0) as [recs H0]; [lia|done|].
    simpl in H0. rewrite app_nil_r in H0.
    unfold mbind, M_bind. rewrite fetch_index_eq, H0. simpl.
    apply IH; [done| |].
    + intros j idx Hj Hl. simpl. rewrite <- app_assoc.
      apply (Hbefore (S j) idx); [lia|done].
    + simpl. by rewrite <- app_assoc.
Qed.





(** C7: when the request for one index fails after the requests before
    it were answered, the fetch raises that error; the log holds the
    requests up to the failing one, each once, and none after it; the
    memoised fetch stores nothing, and [get_stock_data], its table slot
    empty, raises the same error and leaves the slot empty. *)
Theorem C7_fetch_aborts s k index e :
  indices !! k = Some index →
  (∀ j idx, (j < k)%nat → indices !! j = Some idx →
     ∃ recs, nsefetch (requests s ++ (url_of <$> take j indices)) (url_of idx)
             = Ok {| resp_data := Some recs |}) →
  nsefetch (requests s ++ (url_of <$> take k indices)) (url_of index) = Raise e →
  (∃ s', fetch_all s = (Raise e, s') ∧
         requests s' = requests s ++ (url_of <$> take (S k) indices) ∧
         NoDup (url_of <$> take (S k) indices)) ∧
  (memo_slot s = None → lru_slot s = None →
   ∃ s', get_stock_data s = (Raise e, s') ∧
         lru_slot s' = None ∧ memo_slot s' = None ∧
         requests s' = requests s ++ (url_of <$> take (S k) indices)).
Proof.
  intros Hk Hbefore Hn.
  assert (∀ s0, requests s0 = requests s →
            fetch_all s0 = (Raise e, log_requests s0 (url_of <$> take (S k) indices)))
    as Hall.
  { intros s0 Hs0. unfold fetch_all, mbind, M_bind.
    rewrite (fetch_loop_Raise indices [] s0 k index e); rewrite ?Hs0; done. }
  split.
  - eexists. split; [by apply Hall|]. split; [apply requests_log_requests|].
    rewrite fmap_take.
    apply (sublist_NoDup _ (url_of <$> indices)); [decide_true|apply sublist_take].
  - intros Hmemo Hlru. unfold get_stock_data. rewrite Hlru.
    unfold compute_stock_data, mbind, M_bind, get_all_indices_data, time.
    cbn [tick memo_slot]. rewrite Hmemo.
    unfold mbind, M_bind. rewrite (Hall (tick s)) by done.
    eexists. split; [done|].
    destruct (requests_log_requests (tick s) (url_of <$> take (S k) indices))
      as (-> & -> & -> & _). done.
Qed.

(** ** The two memo slots (claims C8 and C9) *)

Lemma fetch_loop_state l acc s :
  ∃ j, (fetch_loop l acc s).2 = log_requests s (url_of <$> take j l).
Proof.
  revert acc s. induction l as [|i l IH]; intros acc s; simpl.
  - by exists 0.
  - unfold mbind, M_bind. rewrite fetch_index_eq.
    destruct (nsefetch _ _) as [[[recs|]]|e] eqn:Hn; try (by exists 1).
    destruct (IH (acc ++ [tag i recs]) (log_request s (url_of i))) as [j Hj].
    exists (S j). exact Hj.
Qed.

Lemma fetch_all_state s : ∃ urls, (fetch_all s).2 = log_requests s urls.
Proof.
  destruct (fetch_loop_state indices [] s) as [j Hj].
  exists (url_of <$> take j indices). rewrite <- Hj.
  unfold fetch_all, mbind, M_bind. by destruct (fetch_loop _ _ _) as [[?|?] ?].
Qed.

Lemma get_all_indices_data_eq s :
  get_all_indices_data s =
  match fresh_entry s with
  | Some df => (Ok df, tick s)
  | None =>
      match fetch_all (tick s) with
      | (Ok df, s1) => (Ok df, store (tick s1) (clock (ticks s1)) df)
      | (Raise e, s1) => (Raise e, s1)
      end
  end.
Proof.
  unfold get_all_indices_data, fresh_entry, time, memo_set, mbind, M_bind, mret, M_ret.
  cbn [tick memo_slot].
  destruct (memo_slot s) as [[expires df]|]; [destruct (_ <? _)%Z; [done|]|];
    by destruct (fetch_all (tick s)) as [[?|?] ?].
Qed.

Lemma get_all_indices_data_lru s :
  lru_slot (get_all_indices_data s).2 = lru_slot s.
Proof.
  rewrite get_all_indices_data_eq. destruct (fresh_entry s); [done|].
  destruct (fetch_all_state (tick s)) as [urls Hs].
  destruct (fetch_all (tick s)) as [[df|e] s1]; simpl in *; subst s1;
    by destruct (requests_log_requests (tick s) urls) as (_ & -> & _).
Qed.

Lemma compute_stock_data_eq s :
  compute_stock_data s =
  match get_all_indices_data s with
  | (Ok df, s1) => (normalize_and_rank df, s1)
  | (Raise e, s1) => (Raise e, s1)
  end.
Proof. unfold compute_stock_data, mbind, M_bind, liftR. done. Qed.

Lemma compute_stock_data_lru s :
  lru_slot (compute_stock_data s).2 = lru_slot s.
Proof.
  rewrite compute_stock_data_eq. pose proof (get_all_indices_data_lru s) as H.
  by destruct (get_all_indices_data s) as [[df|e] s1].
Qed.

Lemma get_stock_data_hit s table :
  lru_slot s = Some table → get_stock_data s = (Ok table, s).
Proof. intros H. unfold get_stock_data. by rewrite H. Qed.

Lemma get_stock_data_Ok s table s' :
  get_stock_data s = (Ok table, s') → lru_slot s' = Some table.
Proof.
  unfold get_stock_data. destruct (lru_slot s) as [t|] eqn:Hl.
  - by intros [= <- <-].
  - destruct (compute_stock_data s) as [[t|e] s1]; [|done]. by intros [= <- <-].
Qed.

Lemma update_table_hit s table selected_symbol n :
  lru_slot s = Some table →
  (update_table selected_symbol n s).2 = s ∧
  update_table None n s = (Ok (rows table), s).
Proof.
  intros H. unfold update_table, mbind, M_bind, liftR, mret, M_ret.
  rewrite (get_stock_data_hit s table H). split; [|done].
  destruct selected_symbol as [sel|]; [|done].
  case_bool_decide; [done|]. by destruct (filter_symbol table sel).
Qed.

Lemma step_cached s table c :
  lru_slot s = Some table →
  lru_slot (step s c) = Some table ∧ requests (step s c) = requests s ∧
  memo_slot (step s c) = memo_slot s.
Proof.
  intros H. destruct c as [|sel n|n|]; simpl.
  - by rewrite (get_stock_data_hit s table H).
  - by rewrite (proj1 (update_table_hit s table sel n H)).
  - unfold download_as_excel, mbind, M_bind, mret, M_ret.
    by rewrite (get_stock_data_hit s table H).
  - done.
Qed.

Lemma run_cached cs s table :
  lru_slot s = Some table →
  lru_slot (run cs s) = Some table ∧ requests (run cs s) = requests s ∧
  memo_slot (run cs s) = memo_slot s.
Proof.
  unfold run. revert s. induction cs as [|c cs IH]; intros s H; simpl; [done|].
  destruct (step_cached s table c H) as (H1 & H2 & H3).
  destruct (IH _ H1) as (-> & -> & ->). done.
Qed.


(** C9: once a call of [get_stock_data] has returned a table, every later
    call returns that table, whatever callbacks ran and however many
    clock readings passed in between; no later call reaches the provider,
    and the refresh callback serves the rows of that table. *)
Theorem C9_lru_never_invalidated s table s1 :
  get_stock_data s = (Ok table, s1) →
  ∀ cs,
    get_stock_data (run cs s1) = (Ok table, run cs s1) ∧
    requests (run cs s1) = requests s1 ∧
    ∀ n, update_table None n (run cs s1) = (Ok (rows table), run cs s1).
Proof.
  intros H%get_stock_data_Ok cs.
  destruct (run_cached cs s1 table H) as (Hl & Hr & _).
  split; [by apply get_stock_data_hit|]. split; [done|].
  intros n. exact (proj2 (update_table_hit (run cs s1) table None n Hl)).
Qed.

(** ** Export (claim C4) *)

(** C4 (the code against the claim): the export callback hands over the
    fixed file name, and a workbook whose sheet carries pandas' default
    name [Sheet1]: [sheet_name] is not among the keyword arguments it
    forwards.  The name [Stocks] is given only by
    [generate_excel_download_link], which nothing calls. *)
Theorem C4_export_sheet_name n_clicks s d s' :
  download_as_excel n_clicks s = (Ok d, s') →
  filename d = "NSE_Stocks_Sorted_by_52_Week_High.xlsx" ∧
  sheet_name (content d) = "Sheet1" ∧
  index_column (content d) = false ∧
  ∃ table, lru_slot s' = Some table ∧
           header (content d) = columns table ∧
           sheet_name (generate_excel_download_link table).2 = "Stocks".
Proof.
  unfold download_as_excel, mbind, M_bind, mret, M_ret.
  destruct (get_stock_data s) as [[table|e] s1] eqn:Hg; [|done].
  intros [= <- <-]. repeat split. exists table.
  split; [by eapply get_stock_data_Ok|]. done.
Qed.

(** ** Further properties of the script *)

(** *** [update_table] (lines 163-167) *)

Lemma filter_symbol_eq table sel :
  "symbol" ∈ columns table →
  filter_symbol table sel =
  Ok {| columns := columns table;
        rows := filter (λ r, match cell r "symbol" with
                             | VStr s => bool_decide (s = sel)
                             | _ => false
                             end = true) (rows table) |}.
Proof.
  intros H. unfold filter_symbol. rewrite getitem_elem by done.
  cbn [mbind result_bind rbind]. by rewrite boolean_index_fmap.
Qed.

(** With a table in the slot, [update_table] serves all its rows when no
    symbol is selected (or the empty one), and otherwise exactly the rows
    whose [symbol] cell is the selected text, in the table's order; the
    state of the process is left as it was. *)
Theorem update_table_selection s table n :
  lru_slot s = Some table →
  update_table None n s = (Ok (rows table), s) ∧
  update_table (Some "") n s = (Ok (rows table), s) ∧
  (∀ sel, sel ≠ "" → "symbol" ∈ columns table →
     ∃ rs, update_table (Some sel) n s = (Ok rs, s) ∧
           rs `sublist_of` rows table ∧
           ∀ r, r ∈ rs ↔ r ∈ rows table ∧ cell r "symbol" = VStr sel).
Proof.
  intros H.
  unfold update_table, mbind, M_bind, liftR, mret, M_ret.
  rewrite (get_stock_data_hit s table H). split; [done|]. split; [done|].
  intros sel Hsel Hsym. rewrite bool_decide_eq_false_2 by done.
  rewrite filter_symbol_eq by done. eexists. split; [done|]. cbn [rows].
  split; [apply sublist_filter|].
  intros r. rewrite list_elem_of_filter.
  destruct (cell r "symbol") as [|f|s0|]; try (split; [intros [? _]|intros [_ ?]]; done).
  rewrite bool_decide_eq_true. naive_solver.
Qed.

(** *** The fetch cache (lines 17-24) *)



(** *** The table slot (lines 46-48) *)

(** A call of [get_stock_data] that raises fills no slot: the next call
    finds it empty and runs the pipeline again. *)
Theorem lru_keeps_no_exception s e s' :
  get_stock_data s = (Raise e, s') →
  lru_slot s = None ∧ lru_slot s' = None ∧
  get_stock_data s' =
    match compute_stock_data s' with
    | (Ok table, s2) => (Ok table, {| lru_slot := Some table; memo_slot := memo_slot s2;
                                      requests := requests s2; ticks := ticks s2 |})
    | (Raise e2, s2) => (Raise e2, s2)
    end.
Proof.
  unfold get_stock_data at 1. destruct (lru_slot s) as [t|] eqn:Hl; [done|].
  pose proof (compute_stock_data_lru s) as Hkeep.
  destruct (compute_stock_data s) as [[t|e'] s1] eqn:Hc; [done|].
  intros [= <- <-]. simpl in Hkeep. rewrite Hl in Hkeep.
  split; [done|]. split; [done|]. unfold get_stock_data. by rewrite Hkeep.
Qed.

(** *** Missing labels (lines 51-58 and 84-86) *)

(** The first of the eight numeric labels that is no column of the
    merged collection is the key of the [KeyError] the stage raises. *)
Theorem first_missing_label_raises df pre c post :
  mandatory_columns = pre ++ c :: post →
  Forall (λ c', c' ∈ columns df) pre →
  c ∉ columns df →
  normalize_and_rank df = Raise (KeyError c).
Proof.
  intros Heq Hpre Hc. unfold normalize_and_rank, mandatory_columns in *.
  repeat (destruct pre as [|? pre];
          [ injection Heq as <- _;
            rewrite coerce_column_eq; cbn [columns];
            by rewrite bool_decide_eq_false_2
          | injection Heq as <- Heq;
            apply Forall_cons in Hpre as [? Hpre];
            rewrite coerce_column_eq; cbn [columns];
            rewrite bool_decide_eq_true_2 by done;
            cbn [mbind result_bind rbind] ]).
  by destruct pre.
Qed.

(** The table has the fourteen labels of the projection, in its order,
    every row has a cell under each of them and under no other label;
    [totalTradedVolume] is coerced and then left out. *)
Theorem output_schema df out :
  normalize_and_rank df = Ok out →
  columns out = output_columns ∧
  length (columns out) = 14 ∧
  "totalTradedVolume" ∉ columns out ∧
  ∀ r, r ∈ rows out → ∀ c, is_Some (r !! c) ↔ c ∈ output_columns.
Proof.
  intros (_ & sr & _ & ->)%normalize_and_rank_Ok. cbn [columns rows].
  split; [done|]. split; [done|]. split; [decide_true|].
  intros r (r0 & -> & _)%list_elem_of_fmap c. unfold norm_row.
  rewrite lookup_reindex. case_bool_decide; split; try done.
Qed.

(** *** The merged collection (lines 33-41) *)


(** A response without the key [data] makes the fetch raise
    [KeyError('data')] at that index; no request follows it. *)
Theorem fetch_without_data_key s k index :
  indices !! k = Some index →
  (∀ j idx, (j < k)%nat → indices !! j = Some idx →
     ∃ recs, nsefetch (requests s ++ (url_of <$> take j indices)) (url_of idx)
             = Ok {| resp_data := Some recs |}) →
  nsefetch (requests s ++ (url_of <$> take k indices)) (url_of index)
    = Ok {| resp_data := None |} →
  ∃ s', fetch_all s = (Raise (KeyError "data"), s') ∧
        requests s' = requests s ++ (url_of <$> take (S k) indices).
Proof.
  intros Hk Hbefore Hn.
  assert (∀ l acc s0 k,
            l !! k = Some index →
            (∀ j idx, (j < k)%nat → l !! j = Some idx →
               ∃ recs, nsefetch (requests s0 ++ (url_of <$> take j l)) (url_of idx)
                       = Ok {| resp_data := Some recs |}) →
            nsefetch (requests s0 ++ (url_of <$> take k l)) (url_of index)
              = Ok {| resp_data := None |} →
            fetch_loop l acc s0
            = (Raise (KeyError "data"), log_requests s0 (url_of <$> take (S k) l)))
    as Hloop.
  { clear. induction l as [|i0 l IH]; intros acc s0 k; [done|].
    destruct k as [|k]; simpl.
    - intros [= <-] _. rewrite app_nil_r. intros Hn.
      unfold mbind, M_bind. by rewrite fetch_index_eq, Hn.
    - intros Hk Hbefore Hn.
      destruct (Hbefore 0 i0) as [recs H0]; [lia|done|].
      simpl in H0. rewrite app_nil_r in H0.
      unfold mbind, M_bind. rewrite fetch_index_eq, H0. simpl.
      apply IH; [done| |].
      + intros j idx Hj Hl. simpl. rewrite <- app_assoc.
        apply (Hbefore (S j) idx); [lia|done].
      + simpl. by rewrite <- app_assoc. }
  eexists. split.
  - unfold fetch_all, mbind, M_bind. by rewrite (Hloop indices [] s k).
  - apply requests_log_requests.
Qed.

(** *** Labels that pass through (lines 84-86) *)

Section Labels.

Hypothesis argsort_perm :
  ∀ ks, Forall (λ k, is_nan k = false) ks → argsort ks ≡ₚ seq 0 (length ks).

(** Ranking neither alters nor merges rows: the output rows are the
    source rows in some order, each with its own [symbol] and [index]
    cells, so a symbol listed under several indices keeps one row for
    each. *)
Theorem labels_pass_through df out :
  normalize_and_rank df = Ok out →
  ∃ src, src ≡ₚ rows df ∧
         Forall2 (λ r0 r, r !! "symbol" = Some (cell r0 "symbol") ∧
                          r !! "index" = Some (cell r0 "index"))
           src (rows out).
Proof using argsort_perm.
  intros Hok. pose proof Hok as (Hc & _)%normalize_and_rank_Ok.
  destruct (normalize_and_rank_total argsort_perm df Hc)
    as (out' & src & Hok' & _ & Hrows & Hperm).
  rewrite Hok in Hok'. injection Hok' as <-.
  exists src. split; [done|]. rewrite Hrows.
  apply Forall2_fmap_r, Forall_Forall2_diag, Forall_forall. intros r0 _.
  split; apply norm_row_label; decide_true.
Qed.

End Labels.

(** *** The whole ranking (lines 80-81) *)

Section Ranking.

Hypothesis argsort_sorted :
  ∀ ks i a b x y, Forall (λ k, is_nan k = false) ks →
    argsort ks !! i = Some a → argsort ks !! S i = Some b →
    ks !! a = Some x → ks !! b = Some y → (x <=? y)%float = true.

Lemma ranked_ascending_le rs sr (i j : nat) r1 r2 :
  take_idx (argsort (reverse (year_high <$> present_rows rs)))
    (reverse (present_rows rs)) = Ok sr →
  (i ≤ j)%nat → sr !! i = Some r1 → sr !! j = Some r2 →
  (year_high r1 <=? year_high r2)%float = true.
Proof using argsort_sorted.
  intros Hsr Hij H1. revert r2. induction Hij as [|j Hij IH]; intros r2 H2.
  - rewrite H1 in H2. injection H2 as <-. apply leb_refl.
    pose proof (ranked_present rs sr Hsr) as Hp. rewrite Forall_forall in Hp.
    by eapply Hp, list_elem_of_lookup_2.
  - destruct (lookup_lt_is_Some_2 sr j) as [rm Hm].
    { apply lookup_lt_Some in H2. lia. }
    eapply leb_trans; [by apply IH|].
    by eapply (ranked_ascending argsort_sorted).
Qed.

(** Above a row with a present 52-week high every row has a present one
    that is at least as large; so the first row carries the highest of
    all, whatever [argsort] does with ties. *)
Theorem ranked_pairwise df out (i j : nat) ri rj y :
  normalize_and_rank df = Ok out →
  (i ≤ j)%nat →
  rows out !! i = Some ri → rows out !! j = Some rj →
  rj !! "yearHigh" = Some (VNum y) → is_nan y = false →
  ∃ x, ri !! "yearHigh" = Some (VNum x) ∧ is_nan x = false ∧ (y <=? x)%float = true.
Proof using argsort_sorted.
  intros (_ & sr & Hsr & ->)%normalize_and_rank_Ok Hij Hi Hj Hy Hny.
  cbn [rows] in Hi, Hj. rewrite list_lookup_fmap in Hi, Hj.
  destruct ((reverse sr ++ missing_rows (rows df)) !! i) as [a|] eqn:Ha; [|done].
  destruct ((reverse sr ++ missing_rows (rows df)) !! j) as [b|] eqn:Hb; [|done].
  injection Hi as <-. injection Hj as <-.
  rewrite norm_row_numeric in Hy by decide_true. injection Hy as <-.
  fold (year_high b) in Hny |- *.
  pose proof (ranked_position _ _ _ _ Hsr Hb) as Pb. rewrite Hny in Pb.
  pose proof (ranked_position _ _ _ _ Hsr Ha) as Pa.
  exists (year_high a). split; [by apply norm_row_numeric; decide_true|].
  destruct (is_nan (year_high a)); [lia|]. split; [done|].
  rewrite lookup_app_l in Ha, Hb by (rewrite length_reverse; lia).
  apply reverse_lookup_Some in Ha as [Ha _]. apply reverse_lookup_Some in Hb as [Hb _].
  eapply (ranked_ascending_le _ _ _ _ _ _ Hsr); [|done..]. lia.
Qed.

End Ranking.

(** *** What the table component is given (lines 133-149 and 163-167) *)

Lemma output_schema_rows df out :
  normalize_and_rank df = Ok out →
  columns out = output_columns ∧
  ∀ r, r ∈ rows out → ∀ c, is_Some (r !! c) ↔ c ∈ output_columns.
Proof.
  intros (_ & sr & _ & ->)%normalize_and_rank_Ok. cbn [columns rows].
  split; [done|].
  intros r (r0 & -> & _)%list_elem_of_fmap c. unfold norm_row.
  rewrite lookup_reindex. case_bool_decide; split; try done.
Qed.

Lemma get_stock_data_ranked s :
  (∀ t, lru_slot s = Some t → ranked_table t) →
  ∀ t, lru_slot (get_stock_data s).2 = Some t → ranked_table t.
Proof.
  intros Hs t. unfold get_stock_data. destruct (lru_slot s) as [t0|] eqn:Hl.
  - simpl. rewrite Hl. apply Hs.
  - pose proof (compute_stock_data_lru s) as Hkeep. rewrite compute_stock_data_eq in *.
    destruct (get_all_indices_data s) as [[df|e] s1]; simpl in *.
    + destruct (normalize_and_rank df) as [t1|e] eqn:Hn; simpl in *.
      * intros [= <-]. by exists df.
      * by rewrite Hkeep, Hl.
    + by rewrite Hkeep, Hl.
Qed.

Lemma step_ranked s c :
  (∀ t, lru_slot s = Some t → ranked_table t) →
  ∀ t, lru_slot (step s c) = Some t → ranked_table t.
Proof.
  intros Hs. pose proof (get_stock_data_ranked s Hs) as Hg.
  destruct c as [|sel n|n|]; simpl; [done| | |done].
  - unfold update_table, mbind, M_bind, liftR, mret, M_ret.
    destruct (get_stock_data s) as [[t0|e] s1]; [|done]. simpl in Hg.
    by destruct (match sel with Some _ => _ | None => _ end).
  - unfold download_as_excel, mbind, M_bind, mret, M_ret.
    by destruct (get_stock_data s) as [[t0|e] s1].
Qed.

Lemma run_ranked cs s :
  (∀ t, lru_slot s = Some t → ranked_table t) →
  ∀ t, lru_slot (run cs s) = Some t → ranked_table t.
Proof.
  unfold run. revert s. induction cs as [|c cs IH]; intros s Hs; simpl; [done|].
  apply IH. by apply step_ranked.
Qed.

(** Whatever callbacks ran since the process started with an empty
    slot, every row [update_table] hands to the table component has a
    cell under each of the fourteen column ids of the layout, and under
    no other label. *)
Theorem served_rows_match_layout cs s sel n rs s' :
  lru_slot s = None →
  update_table sel n (run cs s) = (Ok rs, s') →
  ∀ r, r ∈ rs → ∀ c, is_Some (r !! c) ↔ c ∈ table_columns.*2.
Proof.
  intros Hs Hu.
  assert (∀ t, lru_slot (get_stock_data (run cs s)).2 = Some t → ranked_table t) as Hr.
  { apply get_stock_data_ranked, run_ranked. intros t Ht. by rewrite Hs in Ht. }
  unfold update_table, mbind, M_bind, liftR, mret, M_ret in Hu.
  destruct (get_stock_data (run cs s)) as [[t|e] s1] eqn:Hg; [|done].
  destruct (Hr t (get_stock_data_Ok _ _ _ Hg)) as [df Hn].
  destruct (output_schema_rows df t Hn) as (Hcols & Hrows).
  assert (∀ r, r ∈ rs → r ∈ rows t) as Hsub.
  { destruct sel as [sel|]; [case_bool_decide|]; try (injection Hu as <- _; done).
    rewrite filter_symbol_eq in Hu by (rewrite Hcols; decide_true).
    injection Hu as <- _. cbn [rows]. intros r Hr'.
    by apply list_elem_of_filter in Hr' as [_ ?]. }
  intros r Hr' c. change (table_columns.*2) with output_columns.
  exact (Hrows r (Hsub r Hr') c).
Qed.

(** *** The export and the selection (lines 165-166 and 175-177) *)

(** The export carries the whole table: one line per row of the ranked
    table, in its order, whatever symbol was selected in the callbacks
    before it. *)
Theorem export_whole_table s table cs n :
  lru_slot s = Some table →
  ∃ d, download_as_excel n (run cs s) = (Ok d, run cs s) ∧
       header (content d) = columns table ∧
       cells (content d) = (λ r, cell r <$> columns table) <$> rows table ∧
       length (cells (content d)) = length (rows table).
Proof.
  intros H. destruct (run_cached cs s table H) as (Hl & _ & _).
  unfold download_as_excel, mbind, M_bind, mret, M_ret.
  rewrite (get_stock_data_hit _ table Hl). eexists. split; [done|].
  cbn. by rewrite length_fmap.
Qed.

(** *** Building the layout (lines 106-155) *)



End Pipeline.

(** * Instances

    ** The insertion argsort meets [argsort]'s contract *)

Lemma insert_key_perm p l : insert_key p l ≡ₚ p :: l.
Proof.
  induction l as [|q l IH]; simpl; [done|].
  destruct (p.2 <=? q.2)%float; [done|]. rewrite IH. apply Permutation_swap.
Qed.

Lemma insertion_sorted_perm (l : list (nat * float)) : foldr insert_key [] l ≡ₚ l.
Proof.
  induction l as [|p l IH]; simpl; [done|]. by rewrite insert_key_perm, IH.
Qed.

Lemma insertion_argsort_perm ks : insertion_argsort ks ≡ₚ seq 0 (length ks).
Proof.
  unfold insertion_argsort. rewrite insertion_sorted_perm.
  rewrite fst_zip; [done|]. by rewrite length_seq.
Qed.

Lemma insert_key_HdRel p q l :
  (q.2 <=? p.2)%float = true →
  HdRel (λ a b : nat * float, (a.2 <=? b.2)%float = true) q l →
  HdRel (λ a b : nat * float, (a.2 <=? b.2)%float = true) q (insert_key p l).
Proof.
  intros Hqp Hl. destruct l as [|r l]; simpl; [by constructor|].
  destruct (p.2 <=? r.2)%float; constructor; [done|]. by inversion Hl.
Qed.

Lemma insert_key_Sorted p l :
  is_nan p.2 = false → Forall (λ q : nat * float, is_nan q.2 = false) l →
  Sorted (λ a b : nat * float, (a.2 <=? b.2)%float = true) l →
  Sorted (λ a b : nat * float, (a.2 <=? b.2)%float = true) (insert_key p l).
Proof.
  intros Hp. induction l as [|q l IH]; simpl; intros Hl Hs.
  - by repeat constructor.
  - apply Forall_cons in Hl as [Hq Hl].
    destruct (p.2 <=? q.2)%float eqn:E.
    + constructor; [done|]. by constructor.
    + inversion Hs as [|?? Hs' Hhd]; subst. constructor; [by apply IH|].
      apply insert_key_HdRel; [|done]. by apply leb_false_leb.
Qed.

Lemma insertion_sorted_Sorted (l : list (nat * float)) :
  Forall (λ q : nat * float, is_nan q.2 = false) l →
  Sorted (λ a b : nat * float, (a.2 <=? b.2)%float = true) (foldr insert_key [] l).
Proof.
  induction 1 as [|p l Hp Hl IH]; simpl; [constructor|].
  apply insert_key_Sorted; [done| |done].
  by rewrite insertion_sorted_perm.
Qed.

Lemma Sorted_lookup_adjacent {A} (R : A → A → Prop) (l : list A) i x y :
  Sorted R l → l !! i = Some x → l !! S i = Some y → R x y.
Proof.
  intros Hs. revert i. induction Hs as [|a l Hs IH Hhd]; intros i; [done|].
  destruct i as [|i]; simpl.
  - intros [= <-] Hy. destruct l as [|b l]; [done|]. injection Hy as <-.
    by inversion Hhd.
  - apply IH.
Qed.

Lemma lookup_enumerate (ks : list float) (i : nat) (x : float) :
  (i, x) ∈ zip (seq 0 (length ks)) ks → ks !! i = Some x.
Proof.
  intros [j Hj]%list_elem_of_lookup.
  apply lookup_zip_with_Some in Hj as (a & b & [= -> ->] & Ha & Hb).
  apply lookup_seq in Ha as [-> _]. done.
Qed.

Lemma insertion_argsort_sorted ks i a b x y :
  Forall (λ k, is_nan k = false) ks →
  insertion_argsort ks !! i = Some a → insertion_argsort ks !! S i = Some b →
  ks !! a = Some x → ks !! b = Some y → (x <=? y)%float = true.
Proof.
  unfold insertion_argsort. intros Hks Ha Hb Hx Hy.
  set (E := zip (seq 0 (length ks)) ks) in *.
  rewrite list_lookup_fmap in Ha, Hb.
  destruct (foldr insert_key [] E !! i) as [[a' x']|] eqn:Hi; [|done].
  destruct (foldr insert_key [] E !! S i) as [[b' y']|] eqn:Hsi; [|done].
  simpl in Ha, Hb. injection Ha as ->. injection Hb as ->.
  assert (∀ p, p ∈ foldr insert_key [] E → ks !! p.1 = Some p.2) as Hin.
  { intros [j z] Hp. rewrite insertion_sorted_perm in Hp. by apply lookup_enumerate. }
  pose proof (Hin _ (list_elem_of_lookup_2 _ _ _ Hi)) as Hx'.
  pose proof (Hin _ (list_elem_of_lookup_2 _ _ _ Hsi)) as Hy'.
  simpl in Hx', Hy'. rewrite Hx in Hx'. rewrite Hy in Hy'.
  injection Hx' as ->. injection Hy' as ->.
  assert (Forall (λ q : nat * float, is_nan q.2 = false) E) as HE.
  { apply Forall_forall. intros [j z] Hp%lookup_enumerate. simpl.
    rewrite Forall_forall in Hks. by eapply Hks, list_elem_of_lookup_2. }
  exact (Sorted_lookup_adjacent _ _ _ _ _ (insertion_sorted_Sorted E HE) Hi Hsi).
Qed.

(** ** The request URL (line 34) *)


(** * The theorems at concrete inputs *)

(** ** Reading a concrete run *)

Lemma returns_Ok {A} (m : result A) : returns m = true → ∃ a, m = Ok a.
Proof. destruct m as [a|e]; [by exists a|done]. Qed.

Lemma returns_run {A} (m : result A * process) :
  returns m.1 = true → ∃ a s, m = (Ok a, s).
Proof. destruct m as [[a|e] s]; [by exists a, s|done]. Qed.

Lemma raises_run {A} (m : result A * process) e :
  m.1 = Raise e → ∃ s, m = (Raise e, s).
Proof. destruct m as [[a|e'] s]; [done|]. intros [= ->]. by exists s. Qed.

(** ** The sample runs return *)


Lemma sample_frame_ranked :
  ∃ out, normalize_and_rank no_number insertion_argsort sample_frame = Ok out.
Proof. apply returns_Ok. vm_compute. reflexivity. Qed.





Lemma sample_run :
  ∃ table s1,
    get_stock_data no_number insertion_argsort sample_nsefetch sample_clock cold
    = (Ok table, s1).
Proof. apply returns_run. vm_compute. reflexivity. Qed.

Lemma sample_download :
  ∃ d s',
    download_as_excel no_number insertion_argsort sample_nsefetch sample_clock 1 cold
    = (Ok d, s').
Proof. apply returns_run. vm_compute. reflexivity. Qed.

Lemma failing_run :
  ∃ s', get_stock_data no_number insertion_argsort failing_nsefetch sample_clock cold
        = (Raise (ProviderError "timeout"), s').
Proof. apply raises_run. vm_compute. reflexivity. Qed.

(** The four requests before the one for NIFTY 100 are answered. *)
Lemma failing_nsefetch_before j idx :
  j < 4 → indices !! j = Some idx →
  ∃ recs, failing_nsefetch (requests cold ++ (url_of <$> take j indices)) (url_of idx)
          = Ok {| resp_data := Some recs |}.
Proof.
  intros Hj Hi.
  do 4 (destruct j as [|j]; [injection Hi as <-; eexists; reflexivity|]). lia.
Qed.

Lemma malformed_nsefetch_before j idx :
  j < 4 → indices !! j = Some idx →
  ∃ recs, malformed_nsefetch (requests cold ++ (url_of <$> take j indices)) (url_of idx)
          = Ok {| resp_data := Some recs |}.
Proof.
  intros Hj Hi.
  do 4 (destruct j as [|j]; [injection Hi as <-; eexists; reflexivity|]). lia.
Qed.

(** ** The claims at concrete inputs *)




(** C2 at the sample frame, ranked with the insertion argsort. *)
Lemma C2_witness :
  ∃ out,
    normalize_and_rank no_number insertion_argsort sample_frame = Ok out ∧
    filter (λ r, isna (cell r "yearHigh") = true) (rows out)
      = norm_row no_number (columns sample_frame) <$> missing_rows no_number (rows sample_frame) ∧
    rows out ≡ₚ norm_row no_number (columns sample_frame) <$> rows sample_frame.
Proof.
  destruct sample_frame_ranked as [out H]. exists out. split; [exact H|].
  exact (proj2 (proj2 (C2_ranked_by_yearHigh no_number insertion_argsort
                         (λ ks _, insertion_argsort_perm ks) insertion_argsort_sorted
                         sample_frame out H))).
Defined.

(** C2 as first worded fails: numpy's quicksort hands back eighteen
    rows of one 52-week high in an order that is not the source order. *)
Lemma C2_counterexample :
  (λ r, cell r "symbol") <$> rows tied_frame = VStr <$> tied_symbols ∧
  (λ out, (λ r, (cell r "symbol", cell r "yearHigh")) <$> rows out)
  <$> normalize_and_rank no_number npy_argsort tied_frame
  = Ok ((λ s, (VStr s, VNum 100)) <$>
        [ "S00"; "S01"; "S16"; "S15"; "S14"; "S13"; "S12"; "S11"; "S10";
          "S09"; "S08"; "S07"; "S06"; "S05"; "S04"; "S03"; "S02"; "S17" ]).
Proof. split; vm_compute; reflexivity. Qed.






(** C7 at the provider whose fifth request times out. *)
Lemma C7_witness :
  indices !! 4 = Some "NIFTY 100" ∧
  failing_nsefetch (requests cold ++ (url_of <$> take 4 indices)) (url_of "NIFTY 100")
    = Raise (ProviderError "timeout") ∧
  (∃ s', fetch_all failing_nsefetch cold = (Raise (ProviderError "timeout"), s') ∧
         requests s' = requests cold ++ (url_of <$> take 5 indices) ∧
         NoDup (url_of <$> take 5 indices)) ∧
  (∃ s', get_stock_data no_number insertion_argsort failing_nsefetch sample_clock cold
         = (Raise (ProviderError "timeout"), s') ∧
         lru_slot s' = None ∧ memo_slot s' = None ∧
         requests s' = requests cold ++ (url_of <$> take 5 indices)).
Proof.
  split; [reflexivity|]. split; [reflexivity|].
  destruct (C7_fetch_aborts no_number insertion_argsort failing_nsefetch sample_clock
              cold 4 "NIFTY 100" (ProviderError "timeout")
              eq_refl failing_nsefetch_before eq_refl) as [H1 H2].
  split; [exact H1|]. exact (H2 eq_refl eq_refl).
Defined.


(** C9 after a first call, with five callbacks and clock readings in
    between. *)
Lemma C9_witness :
  ∃ table s1,
    get_stock_data no_number insertion_argsort sample_nsefetch sample_clock cold
    = (Ok table, s1) ∧
    let s2 := run no_number insertion_argsort sample_nsefetch sample_clock
                [ClockReading; UpdateTable (Some "X") 1; ClockReading;
                 DownloadAsExcel 1; GetStockData] s1 in
    get_stock_data no_number insertion_argsort sample_nsefetch sample_clock s2
    = (Ok table, s2) ∧
    requests s2 = requests s1.
Proof.
  destruct sample_run as (table & s1 & H). exists table, s1. split; [exact H|].
  destruct (C9_lru_never_invalidated no_number insertion_argsort sample_nsefetch
              sample_clock cold table s1 H
              [ClockReading; UpdateTable (Some "X") 1; ClockReading;
               DownloadAsExcel 1; GetStockData]) as (H1 & H2 & _).
  exact (conj H1 H2).
Defined.

(** C4 at the first click on the export button. *)
Lemma C4_witness :
  ∃ d s',
    download_as_excel no_number insertion_argsort sample_nsefetch sample_clock 1 cold
    = (Ok d, s') ∧
    filename d = "NSE_Stocks_Sorted_by_52_Week_High.xlsx" ∧
    sheet_name (content d) = "Sheet1".
Proof.
  destruct sample_download as (d & s' & H). exists d, s'. split; [exact H|].
  destruct (C4_export_sheet_name no_number insertion_argsort sample_nsefetch
              sample_clock 1 cold d s' H) as (H1 & H2 & _).
  exact (conj H1 H2).
Defined.

(** ** The further properties at concrete inputs *)

(** After the first call from a cold process the slot holds the table,
    and a refresh without a selection serves all its rows. *)
Lemma update_table_selection_witness :
  ∃ table s1,
    get_stock_data no_number insertion_argsort sample_nsefetch sample_clock cold
    = (Ok table, s1) ∧
    lru_slot s1 = Some table ∧
    update_table no_number insertion_argsort sample_nsefetch sample_clock None 3 s1
    = (Ok (rows table), s1) ∧
    update_table no_number insertion_argsort sample_nsefetch sample_clock (Some "") 3 s1
    = (Ok (rows table), s1).
Proof.
  destruct sample_run as (table & s1 & H). exists table, s1. split; [exact H|].
  pose proof (get_stock_data_Ok _ _ _ _ _ _ _ H) as Hl. split; [exact Hl|].
  destruct (update_table_selection no_number insertion_argsort sample_nsefetch
              sample_clock s1 table 3 Hl) as (H1 & H2 & _).
  exact (conj H1 H2).
Defined.



(** The provider times out on the fifth request: nothing is kept. *)
Lemma lru_keeps_no_exception_witness :
  ∃ s',
    get_stock_data no_number insertion_argsort failing_nsefetch sample_clock cold
    = (Raise (ProviderError "timeout"), s') ∧
    lru_slot cold = None ∧ lru_slot s' = None.
Proof.
  destruct failing_run as (s' & H). exists s'. split; [exact H|].
  destruct (lru_keeps_no_exception no_number insertion_argsort failing_nsefetch
              sample_clock cold _ s' H) as (H1 & H2 & _).
  exact (conj H1 H2).
Defined.

(** [yearLow] is the last of the eight labels, and the only one the
    frame lacks. *)
Lemma first_missing_label_raises_witness :
  mandatory_columns =
    [ "totalTradedVolume"; "lastPrice"; "previousClose"; "open"; "dayHigh";
      "dayLow"; "yearHigh" ] ++ "yearLow" :: [] ∧
  ("yearLow" ∉ columns frame_without_yearLow) ∧
  normalize_and_rank no_number insertion_argsort frame_without_yearLow
  = Raise (KeyError "yearLow").
Proof.
  split; [reflexivity|].
  assert ("yearLow" ∉ columns frame_without_yearLow) as Hc by decide_true.
  split; [exact Hc|].
  apply (first_missing_label_raises no_number insertion_argsort frame_without_yearLow
           [ "totalTradedVolume"; "lastPrice"; "previousClose"; "open"; "dayHigh";
             "dayLow"; "yearHigh" ] "yearLow" [] eq_refl); [decide_true|exact Hc].
Defined.

(** The schema of the ranked sample frame. *)
Lemma output_schema_witness :
  ∃ out,
    normalize_and_rank no_number insertion_argsort sample_frame = Ok out ∧
    columns out = output_columns ∧
    length (columns out) = 14 ∧
    "totalTradedVolume" ∉ columns out.
Proof.
  destruct sample_frame_ranked as [out H]. exists out. split; [exact H|].
  destruct (output_schema no_number insertion_argsort sample_frame out H)
    as (H1 & H2 & H3 & _).
  exact (conj H1 (conj H2 H3)).
Defined.


(** The fifth answer lacks the key [data]. *)
Lemma fetch_without_data_key_witness :
  indices !! 4 = Some "NIFTY 100" ∧
  malformed_nsefetch (requests cold ++ (url_of <$> take 4 indices)) (url_of "NIFTY 100")
    = Ok {| resp_data := None |} ∧
  ∃ s', fetch_all malformed_nsefetch cold = (Raise (KeyError "data"), s') ∧
        requests s' = requests cold ++ (url_of <$> take 5 indices).
Proof.
  split; [reflexivity|]. split; [reflexivity|].
  exact (fetch_without_data_key malformed_nsefetch cold 4 "NIFTY 100"
           eq_refl malformed_nsefetch_before eq_refl).
Defined.

(** The sample frame lists X and Y under different indices. *)
Lemma labels_pass_through_witness :
  ∃ out src,
    normalize_and_rank no_number insertion_argsort sample_frame = Ok out ∧
    src ≡ₚ rows sample_frame ∧
    Forall2 (λ r0 r, r !! "symbol" = Some (cell r0 "symbol") ∧
                     r !! "index" = Some (cell r0 "index"))
      src (rows out).
Proof.
  destruct sample_frame_ranked as [out H].
  destruct (labels_pass_through no_number insertion_argsort
              (λ ks _, insertion_argsort_perm ks) sample_frame out H) as (src & H1 & H2).
  exists out, src. exact (conj H (conj H1 H2)).
Defined.


(** The 52-week highs of the ranked sample frame, from the top. *)
Lemma sample_frame_year_highs :
  (λ out, (λ r, r !! "yearHigh") <$> rows out)
  <$> normalize_and_rank no_number insertion_argsort sample_frame
  = Ok [ Some (VNum 150); Some (VNum 100); Some (VNum nan); Some (VNum nan) ].
Proof. vm_compute. reflexivity. Qed.

Lemma sample_selection :
  ∃ rs s',
    update_table no_number insertion_argsort sample_nsefetch sample_clock (Some "X") 1
      (run no_number insertion_argsort sample_nsefetch sample_clock [ClockReading] cold)
    = (Ok rs, s').
Proof. apply returns_run. vm_compute. reflexivity. Qed.

(** The first two rows of the ranked sample frame. *)
Lemma ranked_pairwise_witness :
  ∃ out ri rj,
    normalize_and_rank no_number insertion_argsort sample_frame = Ok out ∧
    rows out !! 0 = Some ri ∧ rows out !! 1 = Some rj ∧
    rj !! "yearHigh" = Some (VNum 100) ∧
    ∃ x, ri !! "yearHigh" = Some (VNum x) ∧
         is_nan x = false ∧ (100 <=? x)%float = true.
Proof.
  destruct sample_frame_ranked as [out H].
  pose proof sample_frame_year_highs as Hy. rewrite H in Hy.
  injection Hy as Hy.
  assert (((λ r : row, r !! "yearHigh") <$> rows out) !! 0 = Some (Some (VNum 150)))
    as H0 by (rewrite Hy; reflexivity).
  assert (((λ r : row, r !! "yearHigh") <$> rows out) !! 1 = Some (Some (VNum 100)))
    as H1 by (rewrite Hy; reflexivity).
  apply list_lookup_fmap_Some_1 in H0 as (ri & _ & Hi).
  apply list_lookup_fmap_Some_1 in H1 as (rj & Hyj%eq_sym & Hj).
  exists out, ri, rj. split; [exact H|]. split; [exact Hi|]. split; [exact Hj|].
  split; [exact Hyj|].
  exact (ranked_pairwise no_number insertion_argsort insertion_argsort_sorted
           sample_frame out 0 1 ri rj 100 H (le_S 0 0 (le_n 0)) Hi Hj Hyj eq_refl).
Defined.

(** A selection of the symbol X, made after one clock reading. *)
Lemma served_rows_match_layout_witness :
  lru_slot cold = None ∧
  ∃ rs s',
    update_table no_number insertion_argsort sample_nsefetch sample_clock (Some "X") 1
      (run no_number insertion_argsort sample_nsefetch sample_clock [ClockReading] cold)
    = (Ok rs, s') ∧
    Forall (λ r : row, ∀ c, is_Some (r !! c) ↔ c ∈ table_columns.*2) rs.
Proof.
  split; [reflexivity|].
  destruct sample_selection as (rs & s' & H). exists rs, s'. split; [exact H|].
  apply Forall_forall.
  exact (served_rows_match_layout no_number insertion_argsort sample_nsefetch
           sample_clock [ClockReading] cold (Some "X") 1 rs s' eq_refl H).
Defined.

(** An export that follows a selection of the symbol X. *)
Lemma export_whole_table_witness :
  ∃ table s1,
    get_stock_data no_number insertion_argsort sample_nsefetch sample_clock cold
    = (Ok table, s1) ∧
    let s2 := run no_number insertion_argsort sample_nsefetch sample_clock
                [UpdateTable (Some "X") 1] s1 in
    ∃ d, download_as_excel no_number insertion_argsort sample_nsefetch sample_clock 2 s2
         = (Ok d, s2) ∧
         length (cells (content d)) = length (rows table).
Proof.
  destruct sample_run as (table & s1 & H). exists table, s1. split; [exact H|].
  destruct (export_whole_table no_number insertion_argsort sample_nsefetch sample_clock
              s1 table [UpdateTable (Some "X") 1] 2
              (get_stock_data_Ok _ _ _ _ _ _ _ H)) as (d & H1 & _ & _ & H4).
  exists d. exact (conj H1 H4).
Defined.


